(** * The plugin dispatch engine of libstoragemgmt-golang (plugin.go)

    A shallow embedding of [PluginInit], [noSupport] and [Plugin.Run], and
    the properties of the session loop: which Transport operations are
    invoked, in which order, and when the loop returns. *)

From Stdlib Require Import ZArith Ascii.
From stdpp Require Import gmap strings list.

(** ** Errors

    Go's [error] interface holds either a [*errors.LsmError] (the structured
    error of the protocol) or some other error value.  The two other values
    that reach this file are the [*strconv.NumError] of [strconv.ParseInt] and
    the operating system's errors of [net.FileConn] and of the socket. *)

Record LsmError := mkLsmError { Code : Z; Message : string }.

Inductive NumErrKind := ErrSyntax | ErrRange.

Inductive error :=
| LsmErr (e : LsmError)
| NumErr (func : string) (num : string) (kind : NumErrKind)
| OsErr (msg : string).

(** The type assertion of [err] to a pointer to [errors.LsmError]. *)
Definition asLsmError (err : error) : option LsmError :=
  match err with
  | LsmErr e => Some e
  | _ => None
  end.

(** ** Strings of decimal digits

    The value of a string of decimal digits, read from the left; [None] when
    a byte of the string is no decimal digit. *)

Definition digit_of (c : ascii) : option Z :=
  let n := Z.of_N (N_of_ascii c) in
  if decide (48 <= n <= 57)%Z then Some (n - 48)%Z else None.

Fixpoint parse_digits (s : string) (acc : Z) : option Z :=
  match s with
  | EmptyString => Some acc
  | String c rest =>
      match digit_of c with
      | Some d => parse_digits rest (acc * 10 + d)%Z
      | None => None
      end
  end.

(** ** strconv.ParseInt(s, 10, 32)

    The standard library's [ParseUint] and [ParseInt] at the base and the
    bit size [PluginInit] passes.  [ParseUint] reads the bytes from the left
    and returns at the first one it cannot take: with a syntax error at a
    byte that is no digit of the base, with a range error as soon as the
    value passes [maxVal], without a look at the bytes that follow. *)

(** [lower(c)]: [c | ('x' - 'X')]. *)
Definition lower (c : Z) : Z := Z.lor c 32.

(** The [switch] of the loop at a base other than 0: the digit a byte
    stands for. *)
Definition digit_val (c : ascii) : option Z :=
  let b := Z.of_N (N_of_ascii c) in
  if decide (48 <= b <= 57)%Z then Some (b - 48)%Z
  else if decide (97 <= lower b <= 122)%Z then Some (lower b - 97 + 10)%Z
  else None.

Definition maxUint64 : Z := 2 ^ 64 - 1.

(** [cutoff]: the smallest number such that [cutoff * 10 > maxUint64]. *)
Definition cutoff10 : Z := maxUint64 / 10 + 1.

(** [maxVal] at 32 bits: [uint64(1)<<32 - 1]. *)
Definition maxVal32 : Z := 2 ^ 32 - 1.

(** The loop of [ParseUint] over the bytes of [s], with [n] the value so
    far, a [uint64] whose arithmetic wraps around. *)
Fixpoint ParseUint_loop (s0 s : string) (n : Z) : Z * option error :=
  match s with
  | EmptyString => (n, None)
  | String c rest =>
      match digit_val c with
      | None => (0%Z, Some (NumErr "ParseUint" s0 ErrSyntax))
      | Some d =>
          if decide (10 <= d)%Z
          then (0%Z, Some (NumErr "ParseUint" s0 ErrSyntax))
          else if decide (cutoff10 <= n)%Z
          then (maxVal32, Some (NumErr "ParseUint" s0 ErrRange))
          else
            let n' := ((n * 10) mod 2 ^ 64)%Z in
            let n1 := ((n' + d) mod 2 ^ 64)%Z in
            if decide (n1 < n' \/ maxVal32 < n1)%Z
            then (maxVal32, Some (NumErr "ParseUint" s0 ErrRange))
            else ParseUint_loop s0 rest n1
      end
  end.

Definition ParseUint10_32 (s : string) : Z * option error :=
  match s with
  | EmptyString => (0%Z, Some (NumErr "ParseUint" s ErrSyntax))
  | _ => ParseUint_loop s s 0
  end.

(** The end of [ParseInt]: the cut at the signed range, then the sign. *)
Definition ParseInt_signed (neg : bool) (un : Z) (s0 : string) : Z + error :=
  let cutoff := (2 ^ 31)%Z in
  if negb neg && bool_decide (cutoff <= un)%Z
  then inr (NumErr "ParseInt" s0 ErrRange)
  else if neg && bool_decide (cutoff < un)%Z
  then inr (NumErr "ParseInt" s0 ErrRange)
  else inl (if neg then (- un)%Z else un).

(** [ParseInt]: the sign is picked off, [ParseUint] reads the rest; an
    error of it that is no range error is returned under [ParseInt]'s name
    with the whole string, a range error goes on to the cut with [maxVal]
    as the value.  The value Go returns beside an error is left out. *)
Definition ParseInt10_32 (s0 : string) : Z + error :=
  match s0 with
  | EmptyString => inr (NumErr "ParseInt" s0 ErrSyntax)
  | String c rest =>
      let '(neg, s) :=
        if Ascii.eqb c "+"%char then (false, rest)
        else if Ascii.eqb c "-"%char then (true, rest)
        else (false, s0) in
      let '(un, err) := ParseUint10_32 s in
      match err with
      | Some (NumErr _ _ ErrRange) | None => ParseInt_signed neg un s0
      | Some (NumErr _ _ kind) => inr (NumErr "ParseInt" s0 kind)
      | Some e => inr e
      end
  end.

(** ** Panics

    A Go function returns its results or panics. *)
Inductive outcome (A : Type) : Type :=
| Returns (a : A)
| Panics.

Arguments Returns {A} a.
Arguments Panics {A}.

(** ** os.NewFile

    [uintptr(fd)] of an [int64], on a platform with 64-bit pointers. *)
Definition uintptr (fd : Z) : Z := (fd mod 2 ^ 64)%Z.

Record File := mkFile { Fd : Z; Name : string }.

(** [os.NewFile(fd, name)]: nil when [int(fd)] is negative, else a file of
    that descriptor. *)
Definition NewFile (fd : Z) (name : string) : option File :=
  let fdi := if decide (2 ^ 63 <= fd)%Z then (fd - 2 ^ 64)%Z else fd in
  if decide (fdi < 0)%Z then None else Some {| Fd := fdi; Name := name |}.

(** ** Requests and the Transport's observable operations *)

Record Request := mkRequest { Method : string; Params : string }.

(** What one call of [readRequest] returns: a request, or an error. *)
Inductive read_result :=
| ReadOk (request : Request)
| ReadErr (err : error).

(** The error kinds of the [errors] package that [plugin.go] names; their
    numbers are that package's. *)
Class ErrorKinds := {
  LibBug : Z;
  NoSupport : Z;
  TransPortComunication : Z
}.

Section Engine.

(** The backend's state, reached by the handlers through the callbacks of
    [p.cb]; the values a handler returns ([interface{}]); the callback
    registry [PluginCallBacks]; the connection [net.Conn]. *)
Context {Backend Resp CallBacks Conn : Type} `{ErrorKinds}.

(** Every call the loop makes on the Transport, every handler it invokes
    and every line it prints, in the order the loop makes them. *)
Inductive event :=
| EvReadRequest (r : read_result)
| EvInvoke (method : string) (params : string)
| EvSendResponse (response : Resp)
| EvSendError (err : error)
| EvClose
| EvPrintf (format : string) (arg : error).

(** [type handler func(p *Plugin, params json.RawMessage) (interface{}, error)]:
    a handler decodes the parameters, calls the backend's callback and
    returns its result and its error ([None] is Go's [nil]).  The state its
    callback works on is threaded through. *)
Definition handler : Type :=
  string -> Backend -> (Resp * option error) * Backend.

(** [buildTable], which fills the dispatch table from the registry, and
    what [net.FileConn] answers for a file that is not nil: the operating
    system's connection or error for the file's descriptor. *)
Variable buildTable : CallBacks -> gmap string (option handler).
Variable FileConn : Z -> Conn + error.

(** [net.FileConn(f)].  On a nil file the duplication of the descriptor
    fails, and the error path asks the file for its name, which dereferences
    the nil pointer: the call panics. *)
Definition net_FileConn (f : option File) : outcome (Conn + error) :=
  match f with
  | None => Panics
  | Some file => Returns (FileConn (Fd file))
  end.

Record transPort := mkTransPort { uds : Conn; debug : bool }.

(** A Go map's entry can hold a nil function: a lookup gives [None] for an
    absent key, [Some None] for a key bound to nil. *)
Record Plugin := mkPlugin {
  tp : transPort;
  cb : CallBacks;
  callTable : gmap string (option handler);
  desc : string;
  ver : string
}.

(** [fmt.Sprintf "%s"] of a [[]string]: the elements between brackets,
    separated by spaces. *)
Fixpoint join_args (l : list string) : string :=
  match l with
  | [] => ""
  | [a] => a
  | a :: rest => a +:+ " " +:+ join_args rest
  end.

Definition sprint_args (l : list string) : string :=
  "[" +:+ join_args l +:+ "]".

Definition newline : string := String (ascii_of_nat 10) EmptyString.

(** [PluginInit]; the result is Go's pair of a Plugin pointer and an error,
    [None] for nil, when the call returns. *)
Definition PluginInit (callbacks : CallBacks) (cmdLineArgs : list string)
    (desc ver : string) : outcome (option Plugin * option error) :=
  match cmdLineArgs with
  | [_; arg] =>
      match ParseInt10_32 arg with
      | inr err => Returns (None, Some err)
      | inl fd =>
          let f := NewFile (uintptr fd) "client" in
          match net_FileConn f with
          | Panics => Panics
          | Returns (inr err) => Returns (None, Some err)
          | Returns (inl s) =>
              let tp := {| uds := s; debug := false |} in
              Returns (Some {| tp := tp; cb := callbacks;
                               callTable := buildTable callbacks;
                               desc := desc; ver := ver |}, None)
          end
      end
  | _ =>
      Returns (None, Some (LsmErr {| Code := LibBug;
         Message := "Plugin called with invalid args: "
                    +:+ sprint_args cmdLineArgs +:+ newline |}))
  end.

(** ** The session: the backend and the log of events so far *)

Record World := mkWorld { backend : Backend; trace : list event }.

Definition emit (e : event) (w : World) : World :=
  {| backend := backend w; trace := trace w ++ [e] |}.

Definition sendError (err : error) : World -> World := emit (EvSendError err).
Definition sendResponse (r : Resp) : World -> World := emit (EvSendResponse r).
Definition close : World -> World := emit EvClose.
Definition printf (format : string) (arg : error) : World -> World :=
  emit (EvPrintf format arg).

Definition noSupport (method : string) (w : World) : World :=
  sendError (LsmErr {| Code := NoSupport;
    Message := "method " +:+ method +:+ " not supported" |}) w.

(** Calling a handler: the call is logged, the callback runs on the
    backend. *)
Definition invoke (f : handler) (request : Request) (w : World)
    : (Resp * option error) * World :=
  let w1 := emit (EvInvoke (Method request) (Params request)) w in
  let '(res, b) := f (Params request) (backend w1) in
  (res, {| backend := b; trace := trace w1 |}).

(** How one turn of the [for] loop ends. *)
Inductive flow := Continue | Return.

(** The branch [if err != nil] of the loop, lines 281 to 295. *)
Definition readFailed (err : error) (w : World) : flow * World :=
  match asLsmError err with
  | Some lsmError =>
      if decide (Code lsmError <> TransPortComunication)
      then (Continue, sendError (LsmErr lsmError) w)
      else (Return, printf ("Communication error: exiting! %s" +:+ newline) (LsmErr lsmError) w)
  | None => (Return, printf ("Unexpected error, exiting! %s" +:+ newline) err w)
  end.

(** The rest of the loop's body, lines 297 to 314. *)
Definition dispatch (p : Plugin) (request : Request) (w : World) : flow * World :=
  match callTable p !! Method request with
  | Some (Some f) =>
      let '((response, err), w1) := invoke f request w in
      let w2 := match err with
                | Some e => sendError e w1
                | None => sendResponse response w1
                end in
      if decide (Method request = "plugin_unregister")
      then (Return, close w2)
      else (Continue, w2)
  | _ => (Continue, noSupport (Method request) w)
  end.

(** One turn of the loop, given what [readRequest] returned. *)
Definition turn (p : Plugin) (r : read_result) (w : World) : flow * World :=
  let w1 := emit (EvReadRequest r) w in
  match r with
  | ReadErr err => readFailed err w1
  | ReadOk request => dispatch p request w1
  end.

(** How [Run] ends on a finite supply of [readRequest] results: it returns,
    leaving the results it never asked for, or it has consumed them all and
    waits in [readRequest] for the next. *)
Inductive ending :=
| Returned (unread : list read_result)
| Waiting.

(** [Plugin.Run]: the loop over what the Transport delivers. *)
Fixpoint Run (p : Plugin) (incoming : list read_result) (w : World)
    : ending * World :=
  match incoming with
  | [] => (Waiting, w)
  | r :: rest =>
      match turn p r w with
      | (Continue, w1) => Run p rest w1
      | (Return, w1) => (Returned rest, w1)
      end
  end.

End Engine.

(** The state a session starts in: nothing has happened yet. *)
Definition start {Backend Resp : Type} (b : Backend) : @World Backend Resp :=
  {| backend := b; trace := [] |}.

(** ** Observations on a log *)

Definition is_send {Resp : Type} (e : @event Resp) : bool :=
  match e with
  | EvSendResponse _ | EvSendError _ => true
  | _ => false
  end.

Definition is_read {Resp : Type} (e : @event Resp) : bool :=
  match e with
  | EvReadRequest _ => true
  | _ => false
  end.

Definition is_close {Resp : Type} (e : @event Resp) : bool :=
  match e with
  | EvClose => true
  | _ => false
  end.

(** How many events of a log satisfy a test. *)
Fixpoint count {A : Type} (f : A -> bool) (l : list A) : nat :=
  match l with
  | [] => 0
  | x :: rest => (if f x then 1 else 0) + count f rest
  end.

(** The results [readRequest] returned, in the order it returned them. *)
Fixpoint reads {Resp : Type} (l : list (@event Resp)) : list read_result :=
  match l with
  | [] => []
  | EvReadRequest r :: rest => r :: reads rest
  | _ :: rest => reads rest
  end.

(** The events of a log up to, and without, the next [readRequest]. *)
Fixpoint until_read {Resp : Type} (l : list (@event Resp)) : list (@event Resp) :=
  match l with
  | [] => []
  | e :: rest => if is_read e then [] else e :: until_read rest
  end.

(** An error is of kind [k] when it is a structured error with that code. *)
Definition hasKind (k : Z) (err : error) : bool :=
  match asLsmError err with
  | Some e => bool_decide (Code e = k)
  | None => false
  end.

(** What a handler's answer puts on the wire: the error when there is one,
    the response otherwise. *)
Definition reply {Resp : Type} (response : Resp) (err : option error)
    : @event Resp :=
  match err with
  | Some e => EvSendError e
  | None => EvSendResponse response
  end.

(** A numeric string: an optional sign, then one or more decimal digits. *)
Definition is_digit (c : ascii) : bool :=
  bool_decide (48 <= Z.of_N (N_of_ascii c) <= 57)%Z.

Fixpoint all_digits (s : string) : bool :=
  match s with
  | EmptyString => true
  | String c rest => is_digit c && all_digits rest
  end.

Definition unsigned_part (s : string) : string :=
  match s with
  | EmptyString => EmptyString
  | String c rest =>
      if Ascii.eqb c "+"%char || Ascii.eqb c "-"%char then rest else s
  end.

Definition numeric (s : string) : bool :=
  match unsigned_part s with
  | EmptyString => false
  | u => all_digits u
  end.

(** ** The shape of a session's log

    What one turn of the loop logs after its read, and whether the loop goes
    on after that turn; a log of whole turns, one after the other. *)

Inductive answered {Resp : Type} (q : Request) : flow -> list (@event Resp) -> Prop :=
| answered_unsupported e :
    answered q Continue [EvSendError e]
| answered_by_handler s :
    is_send s = true -> Method q <> "plugin_unregister" ->
    answered q Continue [EvInvoke (Method q) (Params q); s]
| answered_and_closed s :
    is_send s = true -> Method q = "plugin_unregister" ->
    answered q Return [EvInvoke (Method q) (Params q); s; EvClose].

Inductive failed {Resp : Type} : flow -> list (@event Resp) -> Prop :=
| failed_reported e : failed Continue [EvSendError e]
| failed_fatal format e : failed Return [EvPrintf format e].

Definition turn_shape {Resp : Type} (r : read_result) (fl : flow)
    (body : list (@event Resp)) : Prop :=
  match r with
  | ReadOk q => answered q fl body
  | ReadErr _ => failed fl body
  end.

(** [served fl t]: the log [t] is made of whole turns, each of them but the
    last one left the loop running, and the last one left it as [fl] says. *)
Inductive served {Resp : Type} : flow -> list (@event Resp) -> Prop :=
| served_nil : served Continue []
| served_turn t r fl body :
    served Continue t -> turn_shape r fl body ->
    served fl (t ++ EvReadRequest r :: body).

(** Whether the loop is still running at an ending. *)
Definition flow_of (e : ending) : flow :=
  match e with
  | Returned _ => Return
  | Waiting => Continue
  end.

(** What an ending left unread. *)
Definition unread_of (e : ending) : list read_result :=
  match e with
  | Returned unread => unread
  | Waiting => []
  end.

(** ** More observations on a log *)

Definition is_print {Resp : Type} (e : @event Resp) : bool :=
  match e with
  | EvPrintf _ _ => true
  | _ => false
  end.

Definition is_invoke {Resp : Type} (e : @event Resp) : bool :=
  match e with
  | EvInvoke _ _ => true
  | _ => false
  end.

(** A log without its printed lines: what the Transport and the handlers
    saw. *)
Definition silent {Resp : Type} (l : list (@event Resp)) : list (@event Resp) :=
  List.filter (fun e => negb (is_print e)) l.

Section Stops.

Context {Backend Resp CallBacks Conn : Type} `{ErrorKinds}.

(** The results of [readRequest] after which the loop reaches a [return]:
    a failure that is no structured error or is of kind
    TransPortComunication, and a [plugin_unregister] that has a handler. *)
Definition stops (p : @Plugin Backend Resp CallBacks Conn) (r : read_result)
    : bool :=
  match r with
  | ReadErr err =>
      match asLsmError err with
      | Some lsmError => bool_decide (Code lsmError = TransPortComunication)
      | None => true
      end
  | ReadOk request =>
      match callTable p !! Method request with
      | Some (Some _) => bool_decide (Method request = "plugin_unregister")
      | _ => false
      end
  end.

End Stops.

(** ** The loop of the earlier revision

    [src/unnamed/part_000] is an earlier revision of [plugin.go].  Its [Run]
    prints two more lines: one after it reported a failed read, one before it
    calls a handler. *)
Module Verbose.

Section Engine.

Context {Backend Resp CallBacks Conn : Type} `{ErrorKinds}.

(** What this revision logs: the events of the later one, and the line
    [fmt.Printf] prints from a format and two strings. *)
Inductive line :=
| Op (e : @event Resp)
| Printf2 (format : string) (a b : string).

Record World := mkWorld { backend : Backend; trace : list line }.

Definition emit (l : line) (w : World) : World :=
  {| backend := backend w; trace := trace w ++ [l] |}.

Definition sendError (err : error) : World -> World :=
  emit (Op (EvSendError err)).
Definition sendResponse (r : Resp) : World -> World :=
  emit (Op (EvSendResponse r)).
Definition close : World -> World := emit (Op EvClose).
Definition printf (format : string) (arg : error) : World -> World :=
  emit (Op (EvPrintf format arg)).
Definition printf2 (format a b : string) : World -> World :=
  emit (Printf2 format a b).

Definition noSupport (method : string) (w : World) : World :=
  sendError (LsmErr {| Code := NoSupport;
    Message := "method " +:+ method +:+ " not supported" |}) w.

Definition invoke (f : @handler Backend Resp) (request : Request) (w : World)
    : (Resp * option error) * World :=
  let w1 := emit (Op (EvInvoke (Method request) (Params request))) w in
  let '(res, b) := f (Params request) (backend w1) in
  (res, {| backend := b; trace := trace w1 |}).

Definition readFailed (err : error) (w : World) : flow * World :=
  match asLsmError err with
  | Some lsmError =>
      if decide (Code lsmError <> TransPortComunication)
      then (Continue,
            printf ("Returned error %+v" +:+ newline) (LsmErr lsmError)
              (sendError (LsmErr lsmError) w))
      else (Return,
            printf ("Communication error: exiting! %s" +:+ newline)
              (LsmErr lsmError) w)
  | None => (Return, printf ("Unexpected error, exiting! %s" +:+ newline) err w)
  end.

Definition dispatch (p : @Plugin Backend Resp CallBacks Conn)
    (request : Request) (w : World) : flow * World :=
  match callTable p !! Method request with
  | Some (Some f) =>
      let w0 := printf2 ("Executing %s(%s)" +:+ newline)
                  (Method request) (Params request) w in
      let '((response, err), w1) := invoke f request w0 in
      let w2 := match err with
                | Some e => sendError e w1
                | None => sendResponse response w1
                end in
      if decide (Method request = "plugin_unregister")
      then (Return, close w2)
      else (Continue, w2)
  | _ => (Continue, noSupport (Method request) w)
  end.

Definition turn (p : @Plugin Backend Resp CallBacks Conn) (r : read_result)
    (w : World) : flow * World :=
  let w1 := emit (Op (EvReadRequest r)) w in
  match r with
  | ReadErr err => readFailed err w1
  | ReadOk request => dispatch p request w1
  end.

Fixpoint Run (p : @Plugin Backend Resp CallBacks Conn)
    (incoming : list read_result) (w : World) : ending * World :=
  match incoming with
  | [] => (Waiting, w)
  | r :: rest =>
      match turn p r w with
      | (Continue, w1) => Run p rest w1
      | (Return, w1) => (Returned rest, w1)
      end
  end.

End Engine.

Definition start {Backend Resp : Type} (b : Backend) : @World Backend Resp :=
  {| backend := b; trace := [] |}.

(** The events of the later revision among the lines of a log. *)
Fixpoint ops {Resp : Type} (l : list (@line Resp)) : list (@event Resp) :=
  match l with
  | [] => []
  | Op e :: rest => e :: ops rest
  | Printf2 _ _ _ :: rest => ops rest
  end.

End Verbose.

(** ** A sample plugin

    A backend that counts the calls it served, with a table of four entries,
    one of them bound to nil. *)
Module Demo.

(** Three distinct numbers for the three kinds. *)
#[export] Instance kinds : ErrorKinds :=
  {| LibBug := 1; NoSupport := 153; TransPortComunication := 400 |}.

Definition invalidURI : LsmError := {| Code := 101; Message := "invalid URI" |}.
Definition busy : LsmError := {| Code := 11; Message := "plugin busy" |}.
Definition hangup : LsmError := {| Code := 400; Message := "peer closed" |}.
Definition badJSON : LsmError := {| Code := 1; Message := "malformed request" |}.

Definition pools : @handler nat string :=
  fun _ n => (("[]", None), S n).
Definition register : @handler nat string :=
  fun _ n => (("null", Some (LsmErr invalidURI)), S n).
Definition unregister : @handler nat string :=
  fun _ n => (("null", None), S n).
Definition unregister_failing : @handler nat string :=
  fun _ n => (("null", Some (LsmErr busy)), S n).

Definition table (u : option (@handler nat string))
    : gmap string (option (@handler nat string)) :=
  <["pools" := Some pools]>
    (<["plugin_register" := Some register]>
       (<["plugin_unregister" := u]>
          (<["volumes" := None]> ∅))).

Definition plugin_with (u : option (@handler nat string))
    : @Plugin nat string unit Z :=
  {| tp := {| uds := 3%Z; debug := false |}; cb := tt;
     callTable := table u; desc := "demo"; ver := "1.0" |}.

Definition plugin := plugin_with (Some unregister).
Definition plugin_failing := plugin_with (Some unregister_failing).
Definition plugin_nil := plugin_with None.

Definition reqPools : Request := {| Method := "pools"; Params := "{}" |}.
Definition reqRegister : Request :=
  {| Method := "plugin_register"; Params := "{}" |}.
Definition reqUnregister : Request :=
  {| Method := "plugin_unregister"; Params := "{}" |}.
Definition reqVolumes : Request := {| Method := "volumes"; Params := "{}" |}.
Definition reqVolumeCreate : Request :=
  {| Method := "volume_create"; Params := "{}" |}.

(** The operating system hands out a connection for descriptors 3 to 9. *)
Definition fileConn (fd : Z) : Z + error :=
  if decide (3 <= fd <= 9)%Z then inl fd else inr (OsErr "bad file descriptor").

Definition build (_ : unit) : gmap string (option (@handler nat string)) :=
  table (Some unregister).

(** What the client sends in a sample session. *)
Definition queue : list read_result :=
  [ReadOk reqPools; ReadOk reqVolumeCreate; ReadErr (LsmErr badJSON);
   ReadOk reqUnregister; ReadOk reqPools].

End Demo.


(** ** A second sample

    A plugin whose only handler fails with an error that is no structured
    error, and an operating system that answers only for descriptors that fit
    32 bits. *)
Module Demo2.

Definition volumes : @handler nat string :=
  fun _ n => (("null", Some (OsErr "backend timed out")), S n).

Definition plugin : @Plugin nat string unit Z :=
  {| tp := {| uds := 3%Z; debug := false |}; cb := tt;
     callTable := <["volumes" := Some volumes]> ∅;
     desc := "demo"; ver := "1.0" |}.

Definition fileConn (fd : Z) : Z + error :=
  if decide (- 2 ^ 31 <= fd < 2 ^ 31)%Z then Demo.fileConn fd else inl 0%Z.

(** Requests and failures none of which has a handler in [Demo.plugin_nil]. *)
Definition unserved : list read_result :=
  [ReadOk Demo.reqVolumes; ReadOk Demo.reqVolumeCreate;
   ReadOk Demo.reqUnregister; ReadErr (LsmErr Demo.badJSON)].

End Demo2.

(** * Properties of the session loop *)

Section Loop.

Context {Backend Resp CallBacks Conn : Type} `{ErrorKinds}.
Implicit Types (p : @Plugin Backend Resp CallBacks Conn).
Implicit Types (w : @World Backend Resp) (r : read_result).
Implicit Types (request : Request) (incoming rest : list read_result).

(** *** The loop, one turn at a time *)

Lemma Run_Continue p r rest w w1 :
  turn p r w = (Continue, w1) -> Run p (r :: rest) w = Run p rest w1.
Proof. intros E. cbn [Run]. now rewrite E. Qed.

Lemma Run_Return p r rest w w1 :
  turn p r w = (Return, w1) -> Run p (r :: rest) w = (Returned rest, w1).
Proof. intros E. cbn [Run]. now rewrite E. Qed.

(** A loop that waits for more input goes on with whatever arrives next. *)
Lemma Run_app p incoming rest w w1 :
  Run p incoming w = (Waiting, w1) ->
  Run p (incoming ++ rest) w = Run p rest w1.
Proof.
  revert w. induction incoming as [|r l IH]; intros w E; cbn [Run app] in *.
  - now inversion E.
  - destruct (turn p r w) as [[] w2]; [now apply IH | discriminate].
Qed.

Lemma emit_emit (e1 e2 : @event Resp) w :
  emit e2 (emit e1 w)
  = {| backend := backend w; trace := trace w ++ [e1; e2] |}.
Proof. unfold emit; cbn. now rewrite <- app_assoc. Qed.

(** *** The three ways a failed read ends a turn *)

Lemma turn_read_fatal p (lsmError : LsmError) w :
  Code lsmError = TransPortComunication ->
  turn p (ReadErr (LsmErr lsmError)) w
  = (Return,
     {| backend := backend w;
        trace := trace w ++
          [EvReadRequest (ReadErr (LsmErr lsmError));
           EvPrintf ("Communication error: exiting! %s" +:+ newline)
                    (LsmErr lsmError)] |}).
Proof.
  intros E. unfold turn, readFailed; cbn [asLsmError].
  destruct (decide _) as [N|_]; [contradiction|].
  unfold printf. now rewrite emit_emit.
Qed.

Lemma turn_read_recoverable p (lsmError : LsmError) w :
  Code lsmError <> TransPortComunication ->
  turn p (ReadErr (LsmErr lsmError)) w
  = (Continue,
     {| backend := backend w;
        trace := trace w ++
          [EvReadRequest (ReadErr (LsmErr lsmError));
           EvSendError (LsmErr lsmError)] |}).
Proof.
  intros E. unfold turn, readFailed; cbn [asLsmError].
  destruct (decide _) as [_|N]; [|contradiction].
  unfold sendError. now rewrite emit_emit.
Qed.

Lemma turn_read_unexpected p (err : error) w :
  asLsmError err = None ->
  turn p (ReadErr err) w
  = (Return,
     {| backend := backend w;
        trace := trace w ++
          [EvReadRequest (ReadErr err);
           EvPrintf ("Unexpected error, exiting! %s" +:+ newline) err] |}).
Proof.
  intros E. unfold turn, readFailed. rewrite E.
  unfold printf. now rewrite emit_emit.
Qed.

(** *** The ways a request is answered *)

(** No handler to call: the entry is absent, or bound to nil. *)
Lemma turn_no_handler p request w :
  callTable p !! Method request = None
  \/ callTable p !! Method request = Some None ->
  turn p (ReadOk request) w
  = (Continue,
     {| backend := backend w;
        trace := trace w ++
          [EvReadRequest (ReadOk request);
           EvSendError (LsmErr {| Code := NoSupport;
             Message := "method " +:+ Method request +:+ " not supported" |})] |}).
Proof.
  intros E. unfold turn, dispatch.
  destruct E as [-> | ->]; unfold noSupport, sendError; now rewrite emit_emit.
Qed.

Lemma turn_handler p request (f : handler) w response err b :
  callTable p !! Method request = Some (Some f) ->
  f (Params request) (backend w) = ((response, err), b) ->
  turn p (ReadOk request) w
  = if decide (Method request = "plugin_unregister")
    then (Return,
          {| backend := b;
             trace := trace w ++
               [EvReadRequest (ReadOk request);
                EvInvoke (Method request) (Params request);
                reply response err; EvClose] |})
    else (Continue,
          {| backend := b;
             trace := trace w ++
               [EvReadRequest (ReadOk request);
                EvInvoke (Method request) (Params request);
                reply response err] |}).
Proof.
  intros E F. unfold turn, dispatch. rewrite E.
  unfold invoke. cbn [emit backend trace]. rewrite F.
  destruct (decide _); destruct err; unfold close, sendError, sendResponse, emit;
    cbn [backend trace reply]; now rewrite <- !app_assoc.
Qed.


(** *** Lists of events *)

Lemma app_cons_split {A : Type} (l1 l2 k1 k2 : list A) (x y : A) :
  l1 ++ x :: l2 = k1 ++ y :: k2 ->
  (l1 = k1 /\ x = y /\ l2 = k2)
  \/ (exists m, k1 = l1 ++ x :: m /\ l2 = m ++ y :: k2)
  \/ (exists m, l1 = k1 ++ y :: m /\ k2 = m ++ x :: l2).
Proof.
  revert k1. induction l1 as [|a l1 IH]; intros [|b k1] E; cbn in E.
  - injection E as E1 E2; subst. now left.
  - injection E as E1 E2; subst. right; left. now exists k1.
  - injection E as E1 E2; subst. right; right. now exists l1.
  - injection E as E1 E2; subst.
    destruct (IH _ E2) as [(-> & -> & ->) | [[m [-> ->]] | [m [-> ->]]]].
    + now left.
    + right; left. now exists m.
    + right; right. now exists m.
Qed.

Lemma count_app {A : Type} (f : A -> bool) (l k : list A) :
  count f (l ++ k) = count f l + count f k.
Proof. induction l as [|a l IH]; cbn; [reflexivity | rewrite IH; lia]. Qed.

Lemma count_one_In {A : Type} (f : A -> bool) (l : list A) :
  count f l = 1 -> exists x, In x l /\ f x = true.
Proof.
  induction l as [|a l IH]; cbn; [discriminate|].
  destruct (f a) eqn:F; intros E.
  - exists a. auto.
  - destruct (IH E) as [x [I Fx]]. exists x. auto.
Qed.

Lemma reads_app (l k : list (@event Resp)) : reads (l ++ k) = reads l ++ reads k.
Proof.
  induction l as [|e l IH]; cbn; [reflexivity|].
  destruct e; cbn; now rewrite ?IH.
Qed.

Lemma reads_no_read (l : list (@event Resp)) : count is_read l = 0 -> reads l = [].
Proof.
  induction l as [|e l IH]; cbn; [reflexivity|].
  destruct e; cbn; auto; discriminate.
Qed.

Lemma until_read_no_read (l : list (@event Resp)) :
  count is_read l = 0 -> until_read l = l.
Proof.
  induction l as [|e l IH]; cbn; [reflexivity|].
  destruct (is_read e); cbn; [discriminate|]. intros E. now rewrite IH.
Qed.

Lemma until_read_app (l k : list (@event Resp)) (e : @event Resp) :
  is_read e = true -> until_read (l ++ e :: k) = until_read l.
Proof.
  intros R. induction l as [|a l IH]; cbn.
  - now rewrite R.
  - destruct (is_read a); [reflexivity | now rewrite IH].
Qed.

Lemma In_until_read (l : list (@event Resp)) (e : @event Resp) :
  In e (until_read l) -> In e l.
Proof.
  induction l as [|a l IH]; cbn; [tauto|].
  destruct (is_read a); cbn; [tauto|]. intros [-> | I]; auto.
Qed.

(** *** What a turn logs *)

Lemma turn_shape_no_read r fl (body : list (@event Resp)) :
  turn_shape r fl body -> count is_read body = 0.
Proof.
  destruct r; cbn; intros S; inversion S; subst; cbn;
    repeat match goal with
           | s : event |- _ => destruct s; try discriminate
           end; reflexivity.
Qed.

Lemma turn_shape_one_send request fl (body : list (@event Resp)) :
  turn_shape (ReadOk request) fl body -> count is_send body = 1.
Proof.
  cbn; intros S; inversion S; subst; cbn;
    repeat match goal with
           | E : is_send ?s = true |- _ => rewrite E; clear E
           end; reflexivity.
Qed.

Lemma is_send_reply (response : Resp) (err : option error) :
  is_send (reply response err) = true.
Proof. now destruct err. Qed.

(** Every turn logs its read, then a body of the shape above, and leaves
    the loop as the shape says. *)
Lemma turn_logs p r w :
  exists body,
    trace (turn p r w).2 = trace w ++ EvReadRequest r :: body
    /\ turn_shape r (turn p r w).1 body.
Proof.
  destruct r as [request | err].
  - destruct (callTable p !! Method request) as [[f|]|] eqn:E.
    + destruct (f (Params request) (backend w)) as [[response e] b] eqn:F.
      rewrite (turn_handler _ _ _ _ _ _ _ E F).
      destruct (decide _) as [U|U]; eexists; (split; [reflexivity|]); cbn.
      * apply answered_and_closed; [apply is_send_reply | exact U].
      * apply answered_by_handler; [apply is_send_reply | exact U].
    + rewrite turn_no_handler by now right.
      eexists; split; [reflexivity|]. apply answered_unsupported.
    + rewrite turn_no_handler by now left.
      eexists; split; [reflexivity|]. apply answered_unsupported.
  - destruct err as [lsmError | func num kind | msg].
    + destruct (decide (Code lsmError = TransPortComunication)) as [E|E].
      * rewrite turn_read_fatal by exact E.
        eexists; split; [reflexivity|]. apply failed_fatal.
      * rewrite turn_read_recoverable by exact E.
        eexists; split; [reflexivity|]. apply failed_reported.
    + rewrite turn_read_unexpected by reflexivity.
      eexists; split; [reflexivity|]. apply failed_fatal.
    + rewrite turn_read_unexpected by reflexivity.
      eexists; split; [reflexivity|]. apply failed_fatal.
Qed.

(** The log of a run is made of whole turns, and it tells how the run
    ended. *)
Lemma Run_served p incoming w :
  served Continue (trace w) ->
  served (flow_of (Run p incoming w).1) (trace (Run p incoming w).2).
Proof.
  revert w. induction incoming as [|r rest IH]; intros w S; cbn [Run].
  - exact S.
  - destruct (turn_logs p r w) as [body [T Sh]].
    destruct (turn p r w) as [[] w1]; cbn [fst snd] in *.
    + apply IH. rewrite T. now apply served_turn.
    + cbn. rewrite T. now apply served_turn.
Qed.

(** The reads of a run are the input it consumed, in the input's order. *)
Lemma Run_reads p incoming w :
  exists consumed,
    reads (trace (Run p incoming w).2) = reads (trace w) ++ consumed
    /\ incoming = consumed ++ unread_of (Run p incoming w).1.
Proof.
  revert w. induction incoming as [|r rest IH]; intros w; cbn [Run].
  - exists []. cbn. now rewrite app_nil_r.
  - destruct (turn_logs p r w) as [body [T Sh]].
    assert (R : reads (trace (turn p r w).2) = reads (trace w) ++ [r]).
    { rewrite T, reads_app. cbn.
      now rewrite (reads_no_read _ (turn_shape_no_read _ _ _ Sh)). }
    destruct (turn p r w) as [[] w1]; cbn [fst snd] in *.
    + destruct (IH w1) as [consumed [E I]]. exists (r :: consumed).
      rewrite E, R, <- app_assoc. cbn. now rewrite <- I.
    + exists [r]. now rewrite R.
Qed.


(** *** The loop only adds to the log, and starts with a read *)

Lemma Run_extends p incoming w :
  exists later, trace (Run p incoming w).2 = trace w ++ later.
Proof.
  revert w. induction incoming as [|r rest IH]; intros w; cbn [Run].
  - exists []. cbn. now rewrite app_nil_r.
  - destruct (turn_logs p r w) as [body [T _]].
    destruct (turn p r w) as [[] w1]; cbn [fst snd] in *.
    + destruct (IH w1) as [later L]. rewrite L, T.
      eexists. now rewrite <- app_assoc.
    + rewrite T. now eexists.
Qed.

(** With nothing to read the loop waits and logs nothing; with something
    to read, the next thing it logs is the read of it. *)
Lemma Run_log p incoming w :
  exists later,
    trace (Run p incoming w).2 = trace w ++ later
    /\ match incoming with
       | [] => later = [] /\ (Run p incoming w).1 = Waiting
       | r :: _ => exists later', later = EvReadRequest r :: later'
       end.
Proof.
  destruct incoming as [|r rest]; cbn [Run].
  - exists []. cbn. now rewrite app_nil_r.
  - destruct (turn_logs p r w) as [body [T _]].
    destruct (turn p r w) as [[] w1]; cbn [fst snd] in *.
    + destruct (Run_extends p rest w1) as [later L]. rewrite L, T.
      exists (EvReadRequest r :: body ++ later). split.
      * now rewrite <- app_assoc.
      * now eexists.
    + rewrite T. eexists. split; [reflexivity | now eexists].
Qed.

(** From a turn that goes on to the log of the whole run. *)
Lemma Run_goes_on p r rest w (b : Backend) (body : list (@event Resp)) :
  turn p r w = (Continue, {| backend := b; trace := trace w ++ body |}) ->
  Run p (r :: rest) w = Run p rest {| backend := b; trace := trace w ++ body |}
  /\ exists later,
       trace (Run p (r :: rest) w).2 = trace w ++ body ++ later
       /\ match rest with
          | [] => later = [] /\ (Run p (r :: rest) w).1 = Waiting
          | r' :: _ => exists later', later = EvReadRequest r' :: later'
          end.
Proof.
  intros T. pose proof (Run_Continue p r rest w _ T) as Q. split; [exact Q|].
  rewrite Q.
  destruct (Run_log p rest {| backend := b; trace := trace w ++ body |})
    as [later [L M]].
  exists later. split; [|exact M]. rewrite L. cbn [trace].
  now rewrite <- app_assoc.
Qed.

(** *** What a log of whole turns tells *)

(** While the loop runs, nothing was closed and [plugin_unregister] was
    not dispatched. *)
Lemma served_running (t : list (@event Resp)) :
  served Continue t ->
  count is_close t = 0
  /\ forall params, ~ In (EvInvoke "plugin_unregister" params) t.
Proof.
  intros S. remember Continue as fl eqn:F.
  induction S as [|t r fl body S IH Sh]; [cbn; auto|]. subst fl.
  destruct (IH eq_refl) as [C N]. rewrite count_app. cbn [count is_close].
  split.
  - rewrite C. destruct r; cbn in Sh; inversion Sh; subst; cbn;
      repeat match goal with
             | s : event |- _ => destruct s; try discriminate
             end; reflexivity.
  - intros params I. apply in_app_or in I as [I | [I | I]];
      [now apply (N params) | discriminate |].
    destruct r; cbn in Sh; inversion Sh; subst; cbn in I;
      destruct I as [I | I]; try discriminate; try tauto.
    + injection I as I1 I2. congruence.
    + destruct I as [I | []]. subst. discriminate.
Qed.

(** After the read of a request, exactly one message is sent before the
    next read. *)
Lemma served_one_send fl (t1 t2 : list (@event Resp)) request :
  served fl (t1 ++ EvReadRequest (ReadOk request) :: t2) ->
  count is_send (until_read t2) = 1.
Proof.
  intros S. remember (t1 ++ EvReadRequest (ReadOk request) :: t2) as T eqn:E.
  revert t1 t2 E.
  induction S as [|t r fl body S IH Sh]; intros t1 t2 E.
  - now destruct t1.
  - symmetry in E. apply app_cons_split in E
      as [(-> & E & ->) | [[m [-> ->]] | [m [-> E]]]].
    + injection E as <-.
      rewrite (until_read_no_read _ (turn_shape_no_read _ _ _ Sh)).
      exact (turn_shape_one_send _ _ _ Sh).
    + rewrite until_read_app by reflexivity. now apply (IH t1 m).
    + apply turn_shape_no_read in Sh. subst body.
      rewrite count_app in Sh. cbn in Sh. lia.
Qed.

(** A handler is invoked right after the read of its own request. *)
Lemma served_invoke fl (t t' : list (@event Resp)) method params :
  served fl (t ++ EvInvoke method params :: t') ->
  exists t0 request,
    t = t0 ++ [EvReadRequest (ReadOk request)]
    /\ method = Method request /\ params = Params request.
Proof.
  intros S. remember (t ++ EvInvoke method params :: t') as T eqn:E.
  revert t t' E.
  induction S as [|t0 r fl body S IH Sh]; intros t t' E.
  - now destruct t.
  - symmetry in E. apply app_cons_split in E
      as [(_ & E & _) | [[m [-> ->]] | [m [-> E]]]].
    + discriminate.
    + now apply (IH t m).
    + destruct r as [request | err]; cbn in Sh; inversion Sh; subst;
        match goal with
        | E : _ = m ++ _ :: _ |- _ =>
            destruct m as [|? [|? [|? m]]]; cbn in E;
            injection E as E; subst; try discriminate
        end;
        try (exists t0, request; now rewrite ?app_nil_r);
        try (now destruct m).
Qed.

(** A dispatched [plugin_unregister] is the end of the log. *)
Lemma served_unregister fl (t : list (@event Resp)) params :
  served fl t -> In (EvInvoke "plugin_unregister" params) t ->
  fl = Return /\ count is_close t = 1 /\ exists t0, t = t0 ++ [EvClose].
Proof.
  intros S I. destruct S as [|t r fl body S Sh]; [destruct I|].
  destruct (served_running _ S) as [C N].
  apply in_app_or in I as [I | [I | I]];
    [now destruct (N params) | discriminate |].
  destruct r as [request | err]; cbn in Sh; inversion Sh; subst; cbn in I.
  - destruct I as [I | []]. discriminate.
  - destruct I as [I | [I | []]]; [|subst; discriminate].
    injection I as I1 I2. congruence.
  - split; [reflexivity|]. split.
    + rewrite count_app, C. cbn.
      match goal with s : event |- _ => destruct s; try discriminate end;
        reflexivity.
    + eexists (t ++ [_; _; _]). rewrite <- app_assoc. reflexivity.
  - destruct I as [I | []]. discriminate.
  - destruct I as [I | []]. discriminate.
Qed.

(** *** What the loop does with each kind of input *)

(** C4: when [readRequest] fails with a structured error of kind
    TransPortComunication, [Run] returns at once, leaving the rest of the
    input unread; after the failed read it only prints a line: no
    [sendResponse], no [sendError] and no further read follows. *)
Theorem transport_failure_ends_without_reply p (lsmError : LsmError) rest w :
  Code lsmError = TransPortComunication ->
  Run p (ReadErr (LsmErr lsmError) :: rest) w
  = (Returned rest,
     {| backend := backend w;
        trace := trace w ++
          [EvReadRequest (ReadErr (LsmErr lsmError));
           EvPrintf ("Communication error: exiting! %s" +:+ newline)
                    (LsmErr lsmError)] |})
  /\ count is_send
       [EvPrintf (Resp := Resp) ("Communication error: exiting! %s" +:+ newline)
                 (LsmErr lsmError)] = 0.
Proof.
  intros E. split; [|reflexivity].
  apply Run_Return. now apply turn_read_fatal.
Qed.

(** C7: when [readRequest] fails with a structured error of any kind other
    than TransPortComunication, the session's log goes on with that read and
    the [sendError] of that very error, and the loop does not end there:
    with nothing more to read it waits for the next request, otherwise the
    next thing in the log is the read of the next input. *)
Theorem decode_failure_is_reported p (lsmError : LsmError) rest w :
  Code lsmError <> TransPortComunication ->
  Run p (ReadErr (LsmErr lsmError) :: rest) w
  = Run p rest
      {| backend := backend w;
         trace := trace w ++
           [EvReadRequest (ReadErr (LsmErr lsmError));
            EvSendError (LsmErr lsmError)] |}
  /\ exists later,
       trace (Run p (ReadErr (LsmErr lsmError) :: rest) w).2
       = trace w ++
           [EvReadRequest (ReadErr (LsmErr lsmError));
            EvSendError (LsmErr lsmError)] ++ later
       /\ match rest with
          | [] => later = []
                  /\ (Run p (ReadErr (LsmErr lsmError) :: rest) w).1 = Waiting
          | r :: _ => exists later', later = EvReadRequest r :: later'
          end.
Proof. intros E. apply Run_goes_on. now apply turn_read_recoverable. Qed.

(** C8: when [readRequest] fails with an error that is no structured
    error, the loop prints it and returns; nothing is sent and the rest of
    the input stays unread. *)
Theorem unexpected_failure_ends_without_reply p (err : error) rest w :
  asLsmError err = None ->
  Run p (ReadErr err :: rest) w
  = (Returned rest,
     {| backend := backend w;
        trace := trace w ++
          [EvReadRequest (ReadErr err);
           EvPrintf ("Unexpected error, exiting! %s" +:+ newline) err] |})
  /\ count is_send
       [EvPrintf (Resp := Resp) ("Unexpected error, exiting! %s" +:+ newline) err]
     = 0.
Proof.
  intros E. split; [|reflexivity].
  apply Run_Return. now apply turn_read_unexpected.
Qed.

(** C5: a request whose method has no entry in the dispatch table is
    answered with a NoSupport error whose message names the method: the
    session's log goes on with the read and that [sendError].  The
    Transport is not closed and the loop does not end there: with nothing
    more to read it waits for the next request, otherwise the next thing in
    the log is the read of the next input. *)
Theorem absent_method_not_supported p request rest w :
  callTable p !! Method request = None ->
  Run p (ReadOk request :: rest) w
  = Run p rest
      {| backend := backend w;
         trace := trace w ++
           [EvReadRequest (ReadOk request);
            EvSendError (LsmErr {| Code := NoSupport;
              Message := "method " +:+ Method request +:+ " not supported" |})] |}
  /\ exists later,
       trace (Run p (ReadOk request :: rest) w).2
       = trace w ++
           [EvReadRequest (ReadOk request);
            EvSendError (LsmErr {| Code := NoSupport;
              Message := "method " +:+ Method request +:+ " not supported" |})]
           ++ later
       /\ match rest with
          | [] => later = [] /\ (Run p (ReadOk request :: rest) w).1 = Waiting
          | r :: _ => exists later', later = EvReadRequest r :: later'
          end.
Proof. intros E. apply Run_goes_on. apply turn_no_handler. now left. Qed.

(** C9: an entry bound to a nil handler is treated as an absent one.  No
    handler is invoked and a NoSupport error naming the method is sent: the
    session's log goes on with the read and that [sendError], and the
    backend is untouched.  The Transport is not closed and the loop does not
    end there: with nothing more to read it waits, otherwise the next thing
    in the log is the read of the next input.  A plugin whose table lacks
    the entry does the same.  The method's name plays no part, so this holds
    for [plugin_unregister] too. *)
Theorem nil_handler_not_supported p request rest w :
  callTable p !! Method request = Some None ->
  (Run p (ReadOk request :: rest) w
   = Run p rest
       {| backend := backend w;
          trace := trace w ++
            [EvReadRequest (ReadOk request);
             EvSendError (LsmErr {| Code := NoSupport;
               Message := "method " +:+ Method request +:+ " not supported" |})] |}
   /\ exists later,
        trace (Run p (ReadOk request :: rest) w).2
        = trace w ++
            [EvReadRequest (ReadOk request);
             EvSendError (LsmErr {| Code := NoSupport;
               Message := "method " +:+ Method request +:+ " not supported" |})]
            ++ later
        /\ match rest with
           | [] => later = [] /\ (Run p (ReadOk request :: rest) w).1 = Waiting
           | r :: _ => exists later', later = EvReadRequest r :: later'
           end)
  /\ forall p', callTable p' !! Method request = None ->
       turn p' (ReadOk request) w = turn p (ReadOk request) w.
Proof.
  intros E. split.
  - apply Run_goes_on. apply turn_no_handler. now right.
  - intros p' E'. rewrite !turn_no_handler; auto.
Qed.

(** C3, amended: when the handler of a request other than
    [plugin_unregister] returns a structured error, the session's log goes
    on with the read, the call of the handler and the [sendError] of that
    very error, code and message, and the loop does not end there: with
    nothing more to read it waits for the next request, otherwise the next
    thing in the log is the read of the next input. *)
Theorem callback_error_is_forwarded p request (f : handler) rest w
    response (lsmError : LsmError) b :
  callTable p !! Method request = Some (Some f) ->
  f (Params request) (backend w) = ((response, Some (LsmErr lsmError)), b) ->
  Method request <> "plugin_unregister" ->
  Run p (ReadOk request :: rest) w
  = Run p rest
      {| backend := b;
         trace := trace w ++
           [EvReadRequest (ReadOk request);
            EvInvoke (Method request) (Params request);
            EvSendError (LsmErr lsmError)] |}
  /\ exists later,
       trace (Run p (ReadOk request :: rest) w).2
       = trace w ++
           [EvReadRequest (ReadOk request);
            EvInvoke (Method request) (Params request);
            EvSendError (LsmErr lsmError)] ++ later
       /\ match rest with
          | [] => later = [] /\ (Run p (ReadOk request :: rest) w).1 = Waiting
          | r :: _ => exists later', later = EvReadRequest r :: later'
          end.
Proof.
  intros E F N. apply Run_goes_on.
  rewrite (turn_handler _ _ _ _ _ _ _ E F).
  destruct (decide _); [contradiction | reflexivity].
Qed.

(** C1: in a session where [plugin_unregister] is dispatched to its
    handler, whatever the handler returns, [Run] returns, [close] is
    called exactly once, and [close] is the last thing that happens: no
    request is read after it. *)
Theorem unregister_ends_session p incoming (b : Backend) params :
  In (EvInvoke "plugin_unregister" params)
     (trace (Run p incoming (start b)).2) ->
  (exists unread, (Run p incoming (start b)).1 = Returned unread)
  /\ count is_close (trace (Run p incoming (start b)).2) = 1
  /\ exists t, trace (Run p incoming (start b)).2 = t ++ [EvClose].
Proof.
  intros I.
  destruct (served_unregister _ _ _ (Run_served p incoming (start b) served_nil) I)
    as (F & C & L).
  repeat split; auto.
  destruct (Run p incoming (start b)).1 as [unread|]; [now exists unread | discriminate].
Qed.

(** C6: requests are served one at a time, in the order of receipt.  The
    reads of a run are the input in its order, none skipped; between the
    read of a request and any later read a message has been sent; and a
    handler is invoked right after the read of its own request, hence
    after the answer to every earlier request. *)
Theorem requests_served_in_order p incoming (b : Backend) :
  incoming = reads (trace (Run p incoming (start b)).2)
             ++ unread_of (Run p incoming (start b)).1
  /\ (forall t1 a t2 rb t3,
        trace (Run p incoming (start b)).2
        = t1 ++ EvReadRequest (ReadOk a) :: t2 ++ EvReadRequest rb :: t3 ->
        exists s, In s t2 /\ is_send s = true)
  /\ (forall t1 method params t2,
        trace (Run p incoming (start b)).2
        = t1 ++ EvInvoke method params :: t2 ->
        exists t0 request,
          t1 = t0 ++ [EvReadRequest (ReadOk request)]
          /\ method = Method request /\ params = Params request).
Proof.
  pose proof (Run_served p incoming (start b) served_nil) as S.
  split; [|split].
  - destruct (Run_reads p incoming (start b)) as [consumed [R I]].
    cbn in R. now rewrite R.
  - intros t1 a t2 rb t3 E. rewrite E in S.
    apply served_one_send in S.
    rewrite until_read_app in S by reflexivity.
    apply count_one_In in S as [s [I F]].
    exists s. split; [now apply In_until_read | exact F].
  - intros t1 method params t2 E. rewrite E in S.
    exact (served_invoke _ _ _ _ _ S).
Qed.

(** C10: after every request read from the Transport and before the next
    read, or the end of the run, exactly one message is sent: one
    [sendResponse] or one [sendError]. *)
Theorem one_reply_per_request p incoming (b : Backend) t1 request t2 :
  trace (Run p incoming (start b)).2
  = t1 ++ EvReadRequest (ReadOk request) :: t2 ->
  count is_send (until_read t2) = 1.
Proof.
  intros E. pose proof (Run_served p incoming (start b) served_nil) as S.
  rewrite E in S. exact (served_one_send _ _ _ _ S).
Qed.

End Loop.

(** * Construction *)

Section Bootstrap.

Context {Backend Resp CallBacks Conn : Type} `{ErrorKinds}.
Variable buildTable : CallBacks -> gmap string (option (@handler Backend Resp)).
Variable FileConn : Z -> Conn + error.

Lemma digit_val_digit c d :
  digit_val c = Some d -> (d < 10)%Z -> is_digit c = true.
Proof.
  unfold digit_val, is_digit. destruct (decide (48 <= _ <= 57)%Z) as [R|R].
  - intros _ _. now apply bool_decide_eq_true_2.
  - destruct (decide _) as [L|L]; [|discriminate].
    intros E. injection E as <-. lia.
Qed.

(** On a string that is not all digits the loop of [ParseUint] ends with
    an error: the syntax error at the first byte that is no digit, or the
    range error before it gets there. *)
Lemma ParseUint_loop_not_digits s0 s n :
  all_digits s = false ->
  ParseUint_loop s0 s n = (0%Z, Some (NumErr "ParseUint" s0 ErrSyntax))
  \/ ParseUint_loop s0 s n = (maxVal32, Some (NumErr "ParseUint" s0 ErrRange)).
Proof.
  revert n. induction s as [|c s IH]; intros n; cbn [all_digits ParseUint_loop];
    [discriminate|].
  destruct (digit_val c) as [d|] eqn:D; [|auto].
  destruct (decide (10 <= d)%Z) as [T|T]; [auto|].
  destruct (decide (cutoff10 <= n)%Z); [auto|].
  destruct (decide _); [auto|].
  rewrite (digit_val_digit c d D) by lia. cbn [andb]. apply IH.
Qed.

Lemma ParseUint_not_numeric s :
  match s with EmptyString => false | u => all_digits u end = false ->
  ParseUint10_32 s = (0%Z, Some (NumErr "ParseUint" s ErrSyntax))
  \/ ParseUint10_32 s = (maxVal32, Some (NumErr "ParseUint" s ErrRange)).
Proof.
  destruct s as [|c s]; [now left|]. intros E.
  now apply ParseUint_loop_not_digits.
Qed.

(** What is not numeric is an error for [ParseInt], under its own name and
    with the whole string. *)
Lemma ParseInt_not_numeric arg :
  numeric arg = false ->
  exists kind, ParseInt10_32 arg = inr (NumErr "ParseInt" arg kind).
Proof.
  unfold numeric, unsigned_part, ParseInt10_32.
  destruct arg as [|c rest]; [now exists ErrSyntax|].
  assert (G : forall neg u,
    match u with EmptyString => false | _ => all_digits u end = false ->
    exists kind,
      (let '(un, err) := ParseUint10_32 u in
       match err with
       | Some (NumErr _ _ ErrRange) | None => ParseInt_signed neg un (String c rest)
       | Some (NumErr _ _ kind) => inr (NumErr "ParseInt" (String c rest) kind)
       | Some e => inr e
       end) = inr (NumErr "ParseInt" (String c rest) kind)).
  { intros neg u E. destruct (ParseUint_not_numeric u E) as [-> | ->].
    - now exists ErrSyntax.
    - exists ErrRange. now destruct neg. }
  destruct (Ascii.eqb c "+"); cbn [orb].
  { intros E. apply G. now destruct rest. }
  destruct (Ascii.eqb c "-"); cbn [orb]; intros E.
  - apply G. now destruct rest.
  - apply (G false (String c rest)). exact E.
Qed.

(** C2, amended: with an argument list of a length other than two,
    [PluginInit] returns a structured error of kind LibBug and no Plugin;
    with two arguments of which the second is not numeric, it returns the
    error of [strconv.ParseInt] as it is, which is no structured error and
    so not of kind LibBug, and no Plugin. *)
Theorem PluginInit_rejects (callbacks : CallBacks) cmdLineArgs desc ver :
  length cmdLineArgs <> 2
  \/ (exists arg0 arg, cmdLineArgs = [arg0; arg] /\ numeric arg = false) ->
  exists err,
    PluginInit buildTable FileConn callbacks cmdLineArgs desc ver
    = Returns (None, Some err)
    /\ (length cmdLineArgs <> 2 ->
        err = LsmErr {| Code := LibBug;
                Message := "Plugin called with invalid args: "
                           +:+ sprint_args cmdLineArgs +:+ newline |})
    /\ (forall arg0 arg, cmdLineArgs = [arg0; arg] ->
        ParseInt10_32 arg = inr err
        /\ (exists kind, err = NumErr "ParseInt" arg kind)
        /\ asLsmError err = None /\ hasKind LibBug err = false).
Proof.
  intros [L | (arg0 & arg & -> & N)].
  - eexists. split; [|split].
    + destruct cmdLineArgs as [|a0 [|a1 [|a2 l]]]; try reflexivity.
      now cbn in L.
    + reflexivity.
    + intros arg0 arg ->. now cbn in L.
  - destruct (ParseInt_not_numeric arg N) as [kind P].
    exists (NumErr "ParseInt" arg kind). split; [|split].
    + cbn. now rewrite P.
    + intros L. now cbn in L.
    + intros ? ? E. injection E as <- <-. repeat split; eauto.
Qed.

End Bootstrap.

(** * Further properties of the session loop *)

Section Session.

Context {Backend Resp CallBacks Conn : Type} `{ErrorKinds}.
Implicit Types (p : @Plugin Backend Resp CallBacks Conn).
Implicit Types (w : @World Backend Resp) (r : read_result).
Implicit Types (request : Request) (incoming rest : list read_result).

(** Whether a turn ends the loop depends on what was read and on the
    table, not on what a handler returns. *)
Lemma turn_flow p r w : (turn p r w).1 = if stops p r then Return else Continue.
Proof.
  destruct r as [request | err]; cbn [stops].
  - destruct (callTable p !! Method request) as [[f|]|] eqn:E.
    + destruct (f (Params request) (backend w)) as [[response e] b] eqn:F.
      rewrite (turn_handler _ _ _ _ _ _ _ E F).
      destruct (decide _) as [U|U].
      * now rewrite bool_decide_eq_true_2.
      * now rewrite bool_decide_eq_false_2.
    + rewrite turn_no_handler by now right. reflexivity.
    + rewrite turn_no_handler by now left. reflexivity.
  - destruct err as [lsmError | func num kind | msg]; cbn [asLsmError].
    + destruct (decide (Code lsmError = TransPortComunication)) as [E|E].
      * rewrite turn_read_fatal by exact E. now rewrite bool_decide_eq_true_2.
      * rewrite turn_read_recoverable by exact E.
        now rewrite bool_decide_eq_false_2.
    + now rewrite turn_read_unexpected.
    + now rewrite turn_read_unexpected.
Qed.

(** X2: how a run ends is decided by the input and the table alone.  The
    loop waits for more input exactly when no result it was given stops it;
    when it returns, it does so at the first result that stops it, and
    leaves unread exactly what comes after. *)
Theorem Run_ending p incoming w :
  ((Run p incoming w).1 = Waiting
   <-> Forall (fun r => stops p r = false) incoming)
  /\ (forall unread,
        (Run p incoming w).1 = Returned unread <->
        exists pre r,
          incoming = pre ++ r :: unread /\ stops p r = true
          /\ Forall (fun r => stops p r = false) pre).
Proof.
  revert w. induction incoming as [|r l IH]; intros w; cbn [Run].
  - split; [split; auto|]. intros unread. split; [discriminate|].
    intros (pre & r & E & _). now destruct pre.
  - pose proof (turn_flow p r w) as F.
    destruct (turn p r w) as [fl w1]; cbn [fst] in F. subst fl.
    destruct (stops p r) eqn:St; cbn [fst].
    + split.
      * split; [discriminate|]. intros A. inversion A; congruence.
      * intros unread. split.
        -- intros E. injection E as <-. exists [], r. auto.
        -- intros (pre & r' & E & St' & A). destruct pre as [|a pre].
           ++ injection E as <- <-. reflexivity.
           ++ injection E as <- _. inversion A; congruence.
    + destruct (IH w1) as [W R]. split.
      * rewrite W. split; [now constructor|]. intros A. now inversion A.
      * intros unread. rewrite R. split.
        -- intros (pre & r' & -> & St' & A). exists (r :: pre), r'. auto.
        -- intros (pre & r' & E & St' & A). destruct pre as [|a pre].
           ++ injection E as <- <-. congruence.
           ++ injection E as <- ->. inversion A; subst. now exists pre, r'.
Qed.

(** X5: when the handler of a request other than [plugin_unregister]
    returns no error, the session's log goes on with the read, the call of
    the handler and the [sendResponse] of the value it returned, the backend
    is as the handler left it, and the loop does not end there: with nothing
    more to read it waits for the next request, otherwise the next thing in
    the log is the read of the next input. *)
Theorem handler_result_is_sent p request (f : handler) rest w response b :
  callTable p !! Method request = Some (Some f) ->
  f (Params request) (backend w) = ((response, None), b) ->
  Method request <> "plugin_unregister" ->
  Run p (ReadOk request :: rest) w
  = Run p rest
      {| backend := b;
         trace := trace w ++
           [EvReadRequest (ReadOk request);
            EvInvoke (Method request) (Params request);
            EvSendResponse response] |}
  /\ exists later,
       trace (Run p (ReadOk request :: rest) w).2
       = trace w ++
           [EvReadRequest (ReadOk request);
            EvInvoke (Method request) (Params request);
            EvSendResponse response] ++ later
       /\ match rest with
          | [] => later = [] /\ (Run p (ReadOk request :: rest) w).1 = Waiting
          | r :: _ => exists later', later = EvReadRequest r :: later'
          end.
Proof.
  intros E F N. apply Run_goes_on.
  rewrite (turn_handler _ _ _ _ _ _ _ E F).
  destruct (decide _); [contradiction | reflexivity].
Qed.

(** X6: an error of a handler that is no structured error is sent with
    [sendError] like any other: the session's log goes on with the read, the
    call and that [sendError], and the loop does not end there (it waits, or
    reads the next input).  The same error coming from [readRequest] makes
    the loop return without a reply. *)
Theorem handler_plain_error_is_not_fatal p request (f : handler) rest w
    response (err : error) b :
  callTable p !! Method request = Some (Some f) ->
  f (Params request) (backend w) = ((response, Some err), b) ->
  Method request <> "plugin_unregister" ->
  asLsmError err = None ->
  (Run p (ReadOk request :: rest) w
   = Run p rest
       {| backend := b;
          trace := trace w ++
            [EvReadRequest (ReadOk request);
             EvInvoke (Method request) (Params request);
             EvSendError err] |}
   /\ exists later,
        trace (Run p (ReadOk request :: rest) w).2
        = trace w ++
            [EvReadRequest (ReadOk request);
             EvInvoke (Method request) (Params request);
             EvSendError err] ++ later
        /\ match rest with
           | [] => later = [] /\ (Run p (ReadOk request :: rest) w).1 = Waiting
           | r :: _ => exists later', later = EvReadRequest r :: later'
           end)
  /\ Run p (ReadErr err :: rest) w
     = (Returned rest,
        {| backend := backend w;
           trace := trace w ++
             [EvReadRequest (ReadErr err);
              EvPrintf ("Unexpected error, exiting! %s" +:+ newline) err] |}).
Proof.
  intros E F N A. split.
  - apply Run_goes_on. rewrite (turn_handler _ _ _ _ _ _ _ E F).
    destruct (decide _); [contradiction | reflexivity].
  - apply Run_Return. now apply turn_read_unexpected.
Qed.

(** X7: for [plugin_unregister] the handler runs first, then its result or
    its error is sent, then the Transport is closed and [Run] returns; what
    the handler did to the backend is kept and the rest of the input stays
    unread. *)
Theorem unregister_replies_then_closes p request (f : handler) rest w
    response (err : option error) b :
  Method request = "plugin_unregister" ->
  callTable p !! Method request = Some (Some f) ->
  f (Params request) (backend w) = ((response, err), b) ->
  Run p (ReadOk request :: rest) w
  = (Returned rest,
     {| backend := b;
        trace := trace w ++
          [EvReadRequest (ReadOk request);
           EvInvoke (Method request) (Params request);
           match err with
           | Some e => EvSendError e
           | None => EvSendResponse response
           end;
           EvClose] |}).
Proof.
  intros U E F. apply Run_Return.
  rewrite (turn_handler _ _ _ _ _ _ _ E F).
  destruct (decide _); [reflexivity | contradiction].
Qed.

(** What a log of whole turns tells about [close] and about the lines
    printed. *)
Lemma served_counts fl (t : list (@event Resp)) :
  served fl t ->
  count is_read t = count is_send t + count is_print t
  /\ (fl = Continue -> count is_print t = 0)
  /\ count is_print t <= 1.
Proof.
  induction 1 as [|t r fl body S IH Sh]; [cbn; auto|].
  destruct IH as (R & P & _). specialize (P eq_refl).
  rewrite !count_app, R, P. cbn [count is_read is_send is_print].
  destruct r; cbn in Sh; inversion Sh; subst; cbn;
    repeat match goal with
           | s : event |- _ => destruct s; try discriminate
           end; cbn; repeat split; intros; try discriminate; try lia.
Qed.

Lemma served_close fl (t : list (@event Resp)) :
  served fl t ->
  count is_close t <= 1
  /\ (In EvClose t -> exists params, In (EvInvoke "plugin_unregister" params) t).
Proof.
  intros S. destruct S as [|t r fl body S Sh]; [cbn; split; [lia | tauto]|].
  destruct (served_running _ S) as [C N]. split.
  - rewrite count_app, C. cbn [count is_close].
    destruct r; cbn in Sh; inversion Sh; subst; cbn;
      repeat match goal with
             | s : event |- _ => destruct s; try discriminate
             end; cbn; lia.
  - intros I. apply in_app_or in I as [I | [I | I]]; [|discriminate|].
    + exfalso. clear - C I. induction t as [|a t IH]; [destruct I|].
      cbn in C. destruct I as [-> | I]; [discriminate|].
      apply IH; [|exact I]. destruct (is_close a); [discriminate | exact C].
    + destruct r as [request | err]; cbn in Sh; inversion Sh; subst; cbn in I.
      * destruct I as [I | []]. discriminate.
      * destruct I as [I | [I | []]]; [discriminate | subst; discriminate].
      * exists (Params request). apply in_or_app. right. right. left.
        f_equal. assumption.
      * destruct I as [I | []]. discriminate.
      * destruct I as [I | []]. discriminate.
Qed.

(** A log whose last read failed holds no [close]. *)
Lemma served_failed_read fl (t body : list (@event Resp)) err :
  served fl (t ++ EvReadRequest (ReadErr err) :: body) ->
  count is_read body = 0 ->
  count is_close (t ++ EvReadRequest (ReadErr err) :: body) = 0.
Proof.
  intros S B. remember (t ++ EvReadRequest (ReadErr err) :: body) as T eqn:E.
  destruct S as [|t0 r fl body0 S Sh]; [now destruct t|].
  destruct (served_running _ S) as [C _].
  symmetry in E. apply app_cons_split in E
    as [(-> & E & ->) | [[m [-> ->]] | [m [-> E]]]].
  - injection E as <-. rewrite count_app, C. cbn in Sh.
    inversion Sh; subst; reflexivity.
  - rewrite count_app in B. cbn in B. lia.
  - apply turn_shape_no_read in Sh. subst body0.
    rewrite count_app in Sh. cbn in Sh. lia.
Qed.

(** X3: the Transport is closed at most once, only in a session where
    [plugin_unregister] was dispatched to its handler, and then [close] is
    the last thing in the log; a session whose last read failed has no
    [close] in its log. *)
Theorem close_only_after_unregister p incoming (b : Backend) :
  count is_close (trace (Run p incoming (start b)).2) <= 1
  /\ (In EvClose (trace (Run p incoming (start b)).2) ->
      (exists params,
          In (EvInvoke "plugin_unregister" params)
             (trace (Run p incoming (start b)).2))
      /\ exists t, trace (Run p incoming (start b)).2 = t ++ [EvClose])
  /\ (forall t err body,
        trace (Run p incoming (start b)).2
        = t ++ EvReadRequest (ReadErr err) :: body ->
        count is_read body = 0 ->
        count is_close (trace (Run p incoming (start b)).2) = 0).
Proof.
  pose proof (Run_served p incoming (start b) served_nil) as S.
  destruct (served_close _ _ S) as [C U]. split; [exact C|]. split.
  - intros I. destruct (U I) as [params J]. split; [now exists params|].
    now destruct (served_unregister _ _ _ S J) as (_ & _ & L).
  - intros t err body E B. rewrite E in S |- *.
    exact (served_failed_read _ _ _ _ S B).
Qed.

(** X4: every read is followed by exactly one send or by exactly one
    printed line: in the log of a run the reads are as many as the sends
    and the printed lines together, and at most one line is printed. *)
Theorem each_read_sends_or_prints p incoming (b : Backend) :
  count is_read (trace (Run p incoming (start b)).2)
  = count is_send (trace (Run p incoming (start b)).2)
    + count is_print (trace (Run p incoming (start b)).2)
  /\ count is_print (trace (Run p incoming (start b)).2) <= 1.
Proof.
  destruct (served_counts _ _ (Run_served p incoming (start b) served_nil))
    as (R & _ & P).
  now split.
Qed.




(** X8: when no request of the input has a handler, the backend is never
    touched: it ends as it started and the run adds no handler call to the
    log. *)
Theorem no_handler_no_backend_change p incoming w :
  (forall request f, In (ReadOk request) incoming ->
                     callTable p !! Method request <> Some (Some f)) ->
  backend (Run p incoming w).2 = backend w
  /\ count is_invoke (trace (Run p incoming w).2) = count is_invoke (trace w).
Proof.
  revert w. induction incoming as [|r l IH]; intros w N; cbn [Run]; [auto|].
  assert (T : backend (turn p r w).2 = backend w
              /\ count is_invoke (trace (turn p r w).2)
                 = count is_invoke (trace w)).
  { destruct r as [request | err].
    - destruct (callTable p !! Method request) as [[f|]|] eqn:E.
      + destruct (N request f); [now left | exact E].
      + rewrite turn_no_handler by now right. cbn. rewrite count_app. cbn. auto.
      + rewrite turn_no_handler by now left. cbn. rewrite count_app. cbn. auto.
    - destruct err as [lsmError | func num kind | msg].
      + destruct (decide (Code lsmError = TransPortComunication)) as [E|E].
        * rewrite turn_read_fatal by exact E. cbn. rewrite count_app. cbn. auto.
        * rewrite turn_read_recoverable by exact E. cbn. rewrite count_app.
          cbn. auto.
      + rewrite turn_read_unexpected by reflexivity. cbn. rewrite count_app.
        cbn. auto.
      + rewrite turn_read_unexpected by reflexivity. cbn. rewrite count_app.
        cbn. auto. }
  destruct (turn p r w) as [[] w1]; cbn [snd] in *; [|exact T].
  destruct (IH w1) as [B C].
  - intros request f I. apply N. now right.
  - destruct T as [TB TC]. split; congruence.
Qed.

End Session.

(** * Further properties of construction *)

Section Descriptor.

Context {Backend Resp CallBacks Conn : Type} `{ErrorKinds}.
Variable buildTable : CallBacks -> gmap string (option (@handler Backend Resp)).
Variables FileConn FileConn' : Z -> Conn + error.

Lemma digit_of_Some c d : digit_of c = Some d -> (0 <= d <= 9)%Z.
Proof.
  unfold digit_of. destruct (decide _) as [R|R]; [|discriminate].
  intros E. injection E as <-. lia.
Qed.

Lemma digit_of_val c d : digit_of c = Some d -> digit_val c = Some d.
Proof.
  unfold digit_of, digit_val. now destruct (decide (48 <= _ <= 57)%Z).
Qed.

Lemma parse_digits_grows s acc v :
  (0 <= acc)%Z -> parse_digits s acc = Some v -> (acc <= v)%Z.
Proof.
  revert acc. induction s as [|c s IH]; intros acc A; cbn.
  - intros E. injection E as <-. lia.
  - destruct (digit_of c) as [d|] eqn:D; [|discriminate].
    apply digit_of_Some in D. intros E. apply IH in E; lia.
Qed.

Lemma cutoff10_large : (2 ^ 32 <= cutoff10)%Z.
Proof. now vm_compute. Qed.

(** What the loop of [ParseUint] holds stays between 0 and [maxVal]. *)
Lemma ParseUint_loop_bounds s0 s n :
  (0 <= n <= maxVal32)%Z -> (0 <= (ParseUint_loop s0 s n).1 <= maxVal32)%Z.
Proof.
  assert (M : (maxVal32 = 2 ^ 32 - 1)%Z) by reflexivity.
  revert n. induction s as [|c s IH]; intros n N; cbn [ParseUint_loop].
  - exact N.
  - destruct (digit_val c) as [d|]; [|cbn; lia].
    destruct (decide (10 <= d)%Z); [cbn; lia|].
    destruct (decide (cutoff10 <= n)%Z); [cbn; lia|].
    destruct (decide _) as [O|O]; [cbn; lia|].
    apply IH. pose proof (Z.mod_pos_bound ((n * 10) mod 2 ^ 64 + d) (2 ^ 64)).
    lia.
Qed.

(** On a string of digits the loop of [ParseUint] gives the value of the
    string as long as it does not pass [maxVal], and the range error with
    [maxVal] otherwise. *)
Lemma ParseUint_loop_digits s0 s n v :
  (0 <= n <= maxVal32)%Z -> parse_digits s n = Some v ->
  ParseUint_loop s0 s n
  = if decide (v <= maxVal32)%Z then (v, None)
    else (maxVal32, Some (NumErr "ParseUint" s0 ErrRange)).
Proof.
  assert (M : (maxVal32 = 2 ^ 32 - 1)%Z) by reflexivity.
  pose proof cutoff10_large as K.
  revert n. induction s as [|c s IH]; intros n N; cbn [ParseUint_loop parse_digits].
  - intros E. injection E as <-. destruct (decide _); [reflexivity | lia].
  - destruct (digit_of c) as [d|] eqn:D; [|discriminate].
    rewrite (digit_of_val _ _ D). apply digit_of_Some in D. intros P.
    destruct (decide (10 <= d)%Z); [lia|].
    destruct (decide (cutoff10 <= n)%Z); [lia|].
    assert (E1 : ((n * 10) mod 2 ^ 64 = n * 10)%Z) by (apply Z.mod_small; lia).
    rewrite E1.
    assert (E2 : ((n * 10 + d) mod 2 ^ 64 = n * 10 + d)%Z)
      by (apply Z.mod_small; lia).
    rewrite E2.
    destruct (decide (_ \/ _)) as [O|O].
    + apply parse_digits_grows in P; [|lia].
      destruct (decide (v <= maxVal32)%Z); [lia | reflexivity].
    + apply IH; [lia | exact P].
Qed.

(** What [ParseInt] accepts fits 32 bits. *)
Lemma ParseInt_signed_range neg un s fd :
  (0 <= un)%Z -> ParseInt_signed neg un s = inl fd ->
  (- 2 ^ 31 <= fd < 2 ^ 31)%Z.
Proof.
  unfold ParseInt_signed. intros N. destruct neg; cbn [negb andb].
  - case_bool_decide; [discriminate|]. intros E. injection E as <-. lia.
  - case_bool_decide; [discriminate|]. intros E. injection E as <-. lia.
Qed.

Lemma ParseInt_range s fd :
  ParseInt10_32 s = inl fd -> (- 2 ^ 31 <= fd < 2 ^ 31)%Z.
Proof.
  unfold ParseInt10_32. destruct s as [|c rest]; [discriminate|].
  destruct (if Ascii.eqb c "+" then (false, rest)
            else if Ascii.eqb c "-" then (true, rest)
            else (false, String c rest)) as [neg u].
  assert (N : (0 <= (ParseUint10_32 u).1)%Z).
  { unfold ParseUint10_32. destruct u; [cbn; lia|].
    apply ParseUint_loop_bounds. now vm_compute. }
  destruct (ParseUint10_32 u) as [un err]. cbn [fst] in N.
  destruct err as [[e | func num [] | msg]|]; try discriminate;
    now apply ParseInt_signed_range.
Qed.

Lemma ParseInt_numeric s fd : ParseInt10_32 s = inl fd -> numeric s = true.
Proof.
  intros E. destruct (numeric s) eqn:N; [reflexivity|].
  apply ParseInt_not_numeric in N as [kind N]. congruence.
Qed.

(** The file [os.NewFile] makes of a descriptor that [ParseInt] accepted:
    nil for a negative one. *)
Lemma NewFile_uintptr fd name :
  (- 2 ^ 31 <= fd < 2 ^ 31)%Z ->
  NewFile (uintptr fd) name
  = if decide (fd < 0)%Z then None else Some {| Fd := fd; Name := name |}.
Proof.
  intros R. unfold NewFile, uintptr. destruct (decide (fd < 0)%Z) as [N|N].
  - assert (E : (fd mod 2 ^ 64 = fd + 2 ^ 64)%Z).
    { symmetry. apply (Z.mod_unique _ _ (-1)); lia. }
    rewrite E. destruct (decide (2 ^ 63 <= _)%Z); [|lia].
    destruct (decide _); [reflexivity | lia].
  - rewrite Z.mod_small by lia. destruct (decide (2 ^ 63 <= _)%Z); [lia|].
    destruct (decide _); [lia | reflexivity].
Qed.

(** X10: what [PluginInit] can do.  When it returns, it returns a Plugin
    or an error, never both and never neither.  It panics exactly when it
    is given two arguments of which the second is accepted by [ParseInt] as
    a negative number: the file made of it is nil.  It returns a Plugin
    exactly when the second of two arguments is accepted as a number that
    is not negative and the operating system made a connection of that
    descriptor; the Plugin holds that connection with debugging off, the
    callbacks, their table, and the description and version it was given. *)
Theorem PluginInit_outcomes (callbacks : CallBacks) cmdLineArgs desc ver :
  (PluginInit buildTable FileConn callbacks cmdLineArgs desc ver
   <> Returns (None, None)
   /\ forall pl err,
        PluginInit buildTable FileConn callbacks cmdLineArgs desc ver
        <> Returns (Some pl, Some err))
  /\ (PluginInit buildTable FileConn callbacks cmdLineArgs desc ver = Panics
      <-> exists arg0 arg fd,
            cmdLineArgs = [arg0; arg] /\ ParseInt10_32 arg = inl fd
            /\ (fd < 0)%Z)
  /\ (forall pl,
        PluginInit buildTable FileConn callbacks cmdLineArgs desc ver
        = Returns (Some pl, None)
        <-> exists arg0 arg fd s,
              cmdLineArgs = [arg0; arg] /\ numeric arg = true
              /\ ParseInt10_32 arg = inl fd /\ (0 <= fd < 2 ^ 31)%Z
              /\ FileConn fd = inl s
              /\ pl = {| tp := {| uds := s; debug := false |};
                         cb := callbacks;
                         callTable := buildTable callbacks;
                         desc := desc; ver := ver |}).
Proof.
  destruct cmdLineArgs as [|arg0 [|arg [|a l]]];
    try (cbn [PluginInit]; split; [split; [discriminate | intros; discriminate]|];
         split; [split; [discriminate | intros (? & ? & ? & E & _); discriminate E]|];
         intros pl; split;
           [discriminate | intros (? & ? & ? & ? & E & _); discriminate E]).
  cbn [PluginInit].
  destruct (ParseInt10_32 arg) as [fd|err] eqn:P.
  - pose proof (ParseInt_range _ _ P) as R.
    pose proof (ParseInt_numeric _ _ P) as N.
    rewrite (NewFile_uintptr fd "client" R).
    destruct (decide (fd < 0)%Z) as [Neg|Pos]; cbn [net_FileConn Fd].
    + split; [split; [discriminate | intros; discriminate]|]. split.
      * split; [intros _; now exists arg0, arg, fd | reflexivity].
      * intros pl. split; [discriminate|].
        intros (? & ? & fd' & ? & E & _ & P' & R' & _).
        injection E as <- <-. rewrite P in P'. injection P' as <-. lia.
    + destruct (FileConn fd) as [s|err] eqn:F.
      * split; [split; [discriminate | intros; discriminate]|]. split.
        -- split; [discriminate|].
           intros (? & ? & fd' & E & P' & Neg). injection E as <- <-.
           rewrite P in P'. injection P' as <-. lia.
        -- intros pl. split.
           ++ intros E. injection E as <-. exists arg0, arg, fd, s.
              repeat split; auto; lia.
           ++ intros (? & ? & fd' & s' & E & _ & P' & _ & F' & ->).
              injection E as <- <-. rewrite P in P'. injection P' as <-.
              rewrite F in F'. now injection F' as <-.
      * split; [split; [discriminate | intros; discriminate]|]. split.
        -- split; [discriminate|].
           intros (? & ? & fd' & E & P' & Neg). injection E as <- <-.
           rewrite P in P'. injection P' as <-. lia.
        -- intros pl. split; [discriminate|].
           intros (? & ? & fd' & s' & E & _ & P' & _ & F' & _).
           injection E as <- <-. rewrite P in P'. injection P' as <-.
           rewrite F in F'. discriminate F'.
  - split; [split; [discriminate | intros; discriminate]|]. split.
    + split; [discriminate|].
      intros (? & ? & fd' & E & P' & _). injection E as <- <-.
      rewrite P in P'. discriminate P'.
    + intros pl. split; [discriminate|].
      intros (? & ? & fd' & s' & E & _ & P' & _).
      injection E as <- <-. rewrite P in P'. discriminate P'.
Qed.

(** X11: [PluginInit] asks the operating system for a connection only of
    descriptors from 0 up to, and without, 2^31: two systems that agree on
    those give the same outcome. *)
Theorem PluginInit_descriptor_fits (callbacks : CallBacks) cmdLineArgs desc ver :
  (forall fd, (0 <= fd < 2 ^ 31)%Z -> FileConn fd = FileConn' fd) ->
  PluginInit buildTable FileConn callbacks cmdLineArgs desc ver
  = PluginInit buildTable FileConn' callbacks cmdLineArgs desc ver.
Proof.
  intros A. destruct cmdLineArgs as [|arg0 [|arg [|a l]]]; try reflexivity.
  cbn [PluginInit].
  destruct (ParseInt10_32 arg) as [fd|err] eqn:P; [|reflexivity].
  pose proof (ParseInt_range _ _ P) as R.
  rewrite (NewFile_uintptr fd "client" R).
  destruct (decide (fd < 0)%Z); cbn [net_FileConn Fd]; [reflexivity|].
  rewrite (A fd) by lia. reflexivity.
Qed.

(** X12: a string of digits whose value does not fit a signed 32-bit
    integer is refused with the parser's range error and no Plugin: from
    2^31 on without a sign, beyond 2^31 after a minus sign. *)
Theorem PluginInit_out_of_range (callbacks : CallBacks) arg0 digits v desc ver :
  parse_digits digits 0 = Some v -> (2 ^ 31 <= v)%Z ->
  PluginInit buildTable FileConn callbacks [arg0; digits] desc ver
  = Returns (None, Some (NumErr "ParseInt" digits ErrRange))
  /\ ((2 ^ 31 < v)%Z ->
      PluginInit buildTable FileConn callbacks [arg0; String "-" digits] desc ver
      = Returns (None, Some (NumErr "ParseInt" (String "-" digits) ErrRange))).
Proof.
  intros P V.
  assert (M : (maxVal32 = 2 ^ 32 - 1)%Z) by reflexivity.
  destruct digits as [|c rest]; [cbn in P; injection P as <-; lia|].
  assert (U : ParseUint10_32 (String c rest)
              = if decide (v <= maxVal32)%Z then (v, None)
                else (maxVal32,
                      Some (NumErr "ParseUint" (String c rest) ErrRange))).
  { unfold ParseUint10_32. apply ParseUint_loop_digits; [now vm_compute | exact P]. }
  split.
  - cbn [PluginInit]. unfold ParseInt10_32.
    destruct (Ascii.eqb c "+") eqn:Plus.
    { apply Ascii.eqb_eq in Plus. subst c. discriminate P. }
    destruct (Ascii.eqb c "-") eqn:Minus.
    { apply Ascii.eqb_eq in Minus. subst c. discriminate P. }
    rewrite U. destruct (decide _); unfold ParseInt_signed; cbn [negb andb];
      rewrite bool_decide_eq_true_2 by lia; reflexivity.
  - intros V'. cbn [PluginInit]. unfold ParseInt10_32.
    change (Ascii.eqb "-" "+") with false. change (Ascii.eqb "-" "-") with true.
    cbn iota. rewrite U. destruct (decide _); unfold ParseInt_signed;
      cbn [negb andb]; rewrite bool_decide_eq_true_2 by lia; reflexivity.
Qed.

End Descriptor.

(** * The two revisions of the loop *)

Section Revisions.

Context {Backend Resp CallBacks Conn : Type} `{ErrorKinds}.
Implicit Types (p : @Plugin Backend Resp CallBacks Conn).
Implicit Types (w : @World Backend Resp) (wv : @Verbose.World Backend Resp).

Lemma ops_app (l k : list (@Verbose.line Resp)) :
  Verbose.ops (l ++ k) = Verbose.ops l ++ Verbose.ops k.
Proof.
  induction l as [|a l IH]; cbn; [reflexivity|].
  destruct a; cbn; now rewrite IH.
Qed.

Lemma silent_app (l k : list (@event Resp)) : silent (l ++ k) = silent l ++ silent k.
Proof. apply List.filter_app. Qed.

(** One turn of each revision, from states that agree on the backend and on
    the log without its printed lines. *)
Lemma Verbose_turn p r wv w :
  Verbose.backend wv = backend w ->
  silent (Verbose.ops (Verbose.trace wv)) = silent (trace w) ->
  (Verbose.turn p r wv).1 = (turn p r w).1
  /\ Verbose.backend (Verbose.turn p r wv).2 = backend (turn p r w).2
  /\ silent (Verbose.ops (Verbose.trace (Verbose.turn p r wv).2))
     = silent (trace (turn p r w).2).
Proof.
  intros B S. unfold Verbose.turn, turn. unfold silent in *.
  destruct r as [request | err].
  - unfold Verbose.dispatch, dispatch.
    destruct (callTable p !! Method request) as [[f|]|].
    + unfold Verbose.invoke, invoke. cbn [Verbose.emit Verbose.printf2 emit
        Verbose.backend Verbose.trace backend trace]. rewrite B.
      destruct (f (Params request) (backend w)) as [[response e] b].
      destruct e; destruct (decide _); cbn;
        rewrite ?ops_app, ?List.filter_app; cbn;
        rewrite ?ops_app, ?List.filter_app; cbn; now rewrite S, ?app_nil_r.
    + cbn. rewrite ?ops_app, ?List.filter_app. cbn.
      rewrite ?ops_app, ?List.filter_app. cbn. now rewrite S, B, ?app_nil_r.
    + cbn. rewrite ?ops_app, ?List.filter_app. cbn.
      rewrite ?ops_app, ?List.filter_app. cbn. now rewrite S, B, ?app_nil_r.
  - unfold Verbose.readFailed, readFailed.
    destruct (asLsmError err) as [lsmError|].
    + destruct (decide _); cbn; rewrite ?ops_app, ?List.filter_app; cbn;
        rewrite ?ops_app, ?List.filter_app; cbn; rewrite S, B, ?app_nil_r; auto.
    + cbn. rewrite ?ops_app, ?List.filter_app. cbn.
      rewrite ?ops_app, ?List.filter_app. cbn. rewrite S, B, ?app_nil_r. auto.
Qed.

(** X13: the two revisions of [Run] differ only in what they print.  On the
    same input, from the same backend, they end the same way, leave the
    backend in the same state, and read, call, send and close the same
    things in the same order. *)
Theorem revisions_agree p incoming (b : Backend) :
  (Verbose.Run p incoming (Verbose.start b)).1 = (Run p incoming (start b)).1
  /\ Verbose.backend (Verbose.Run p incoming (Verbose.start b)).2
     = backend (Run p incoming (start b)).2
  /\ silent (Verbose.ops (Verbose.trace (Verbose.Run p incoming (Verbose.start b)).2))
     = silent (trace (Run p incoming (start b)).2).
Proof.
  assert (G : forall wv w,
    Verbose.backend wv = backend w ->
    silent (Verbose.ops (Verbose.trace wv)) = silent (trace w) ->
    (Verbose.Run p incoming wv).1 = (Run p incoming w).1
    /\ Verbose.backend (Verbose.Run p incoming wv).2 = backend (Run p incoming w).2
    /\ silent (Verbose.ops (Verbose.trace (Verbose.Run p incoming wv).2))
       = silent (trace (Run p incoming w).2)).
  { induction incoming as [|r l IH]; intros wv w B S; cbn [Verbose.Run Run].
    - auto.
    - destruct (Verbose_turn p r wv w B S) as (F & B' & S').
      destruct (Verbose.turn p r wv) as [flv wv1].
      destruct (turn p r w) as [fl w1]. cbn [fst snd] in *. subst flv.
      destruct fl; [now apply IH | auto]. }
  now apply G.
Qed.

End Revisions.

(** * The properties at work on the sample plugin *)

Import Demo.

Lemma unregister_ends_session_witness :
  In (EvInvoke "plugin_unregister" "{}")
     (trace (Run plugin_failing queue (start 0)).2)
  /\ ((exists unread, (Run plugin_failing queue (start 0)).1 = Returned unread)
      /\ count is_close (trace (Run plugin_failing queue (start 0)).2) = 1
      /\ exists t, trace (Run plugin_failing queue (start 0)).2 = t ++ [EvClose]).
Proof.
  assert (I : In (EvInvoke "plugin_unregister" "{}")
                 (trace (Run plugin_failing queue (start 0)).2))
    by (vm_compute; auto 10).
  exact (conj I (unregister_ends_session plugin_failing queue 0 "{}" I)).
Defined.

Lemma PluginInit_rejects_witness :
  (length ["plugin"; "4294967296x"] <> 2
   \/ (exists arg0 arg,
         ["plugin"; "4294967296x"] = [arg0; arg] /\ numeric arg = false))
  /\ exists err,
      PluginInit build fileConn tt ["plugin"; "4294967296x"] "demo" "1.0"
      = Returns (None, Some err)
      /\ (length ["plugin"; "4294967296x"] <> 2 ->
          err = LsmErr {| Code := LibBug;
                  Message := "Plugin called with invalid args: "
                             +:+ sprint_args ["plugin"; "4294967296x"]
                             +:+ newline |})
      /\ (forall arg0 arg, ["plugin"; "4294967296x"] = [arg0; arg] ->
          ParseInt10_32 arg = inr err
          /\ (exists kind, err = NumErr "ParseInt" arg kind)
          /\ asLsmError err = None /\ hasKind LibBug err = false).
Proof.
  assert (N : length ["plugin"; "4294967296x"] <> 2
              \/ (exists arg0 arg, ["plugin"; "4294967296x"] = [arg0; arg]
                                   /\ numeric arg = false)).
  { right. exists "plugin", "4294967296x". split; reflexivity. }
  exact (conj N (PluginInit_rejects build fileConn tt
                   ["plugin"; "4294967296x"] "demo" "1.0" N)).
Defined.

(** C2 as stated fails: a second argument that is not numeric gives the
    parser's error, which is not of kind LibBug. *)
Lemma PluginInit_non_numeric_not_LibBug :
  numeric "abc" = false
  /\ PluginInit build fileConn tt ["plugin"; "abc"] "demo" "1.0"
     = Returns (None, Some (NumErr "ParseInt" "abc" ErrSyntax))
  /\ ~ (exists err,
          PluginInit build fileConn tt ["plugin"; "abc"] "demo" "1.0"
          = Returns (None, Some err)
          /\ hasKind LibBug err = true).
Proof.
  split; [reflexivity | split; [reflexivity|]].
  intros [err [E K]]. vm_compute in E. injection E as <-. discriminate K.
Qed.

Lemma callback_error_is_forwarded_witness :
  callTable plugin !! Method reqRegister = Some (Some register)
  /\ register (Params reqRegister) (backend (start (Resp := string) 0))
     = (("null", Some (LsmErr invalidURI)), 1)
  /\ Method reqRegister <> "plugin_unregister"
  /\ Run plugin (ReadOk reqRegister :: [ReadOk reqPools]) (start 0)
     = Run plugin [ReadOk reqPools]
         {| backend := 1;
            trace := trace (start 0) ++
              [EvReadRequest (ReadOk reqRegister);
               EvInvoke (Method reqRegister) (Params reqRegister);
               EvSendError (LsmErr invalidURI)] |}
  /\ exists later,
       trace (Run plugin (ReadOk reqRegister :: [ReadOk reqPools]) (start 0)).2
       = [] ++
           [EvReadRequest (ReadOk reqRegister);
            EvInvoke "plugin_register" "{}";
            EvSendError (LsmErr invalidURI)] ++ later
       /\ exists later', later = EvReadRequest (ReadOk reqPools) :: later'.
Proof.
  assert (E : callTable plugin !! Method reqRegister = Some (Some register))
    by (vm_compute; reflexivity).
  assert (F : register (Params reqRegister) (backend (start (Resp := string) 0))
              = (("null", Some (LsmErr invalidURI)), 1)) by reflexivity.
  assert (N : Method reqRegister <> "plugin_unregister") by (cbn; congruence).
  exact (conj E (conj F (conj N
    (callback_error_is_forwarded plugin reqRegister register [ReadOk reqPools]
       (start 0) "null" invalidURI 1 E F N)))).
Defined.

(** C3 as stated fails for [plugin_unregister]: the handler's error is sent,
    then the Transport is closed and the loop returns; the request that
    follows is never read. *)
Lemma unregister_error_ends_session :
  callTable plugin_failing !! Method reqUnregister = Some (Some unregister_failing)
  /\ unregister_failing (Params reqUnregister) 0 = (("null", Some (LsmErr busy)), 1)
  /\ Run plugin_failing [ReadOk reqUnregister; ReadOk reqPools] (start 0)
     = (Returned [ReadOk reqPools],
        {| backend := 1;
           trace := [EvReadRequest (ReadOk reqUnregister);
                     EvInvoke "plugin_unregister" "{}";
                     EvSendError (LsmErr busy); EvClose] |})
  /\ Run plugin_failing [ReadOk reqUnregister; ReadOk reqPools] (start 0)
     <> Run plugin_failing [ReadOk reqPools]
          {| backend := 1;
             trace := [EvReadRequest (ReadOk reqUnregister);
                       EvInvoke "plugin_unregister" "{}";
                       EvSendError (LsmErr busy)] |}.
Proof.
  split; [vm_compute; reflexivity|]. split; [reflexivity|].
  split; [vm_compute; reflexivity|].
  vm_compute. discriminate.
Qed.

Lemma transport_failure_ends_without_reply_witness :
  Code hangup = TransPortComunication
  /\ Run plugin [ReadErr (LsmErr hangup); ReadOk reqPools] (start 0)
     = (Returned [ReadOk reqPools],
        {| backend := 0;
           trace := [] ++
             [EvReadRequest (ReadErr (LsmErr hangup));
              EvPrintf ("Communication error: exiting! %s" +:+ newline)
                       (LsmErr hangup)] |}).
Proof.
  assert (E : Code hangup = TransPortComunication) by reflexivity.
  exact (conj E (proj1 (transport_failure_ends_without_reply plugin hangup
                          [ReadOk reqPools] (start 0) E))).
Defined.

Lemma absent_method_not_supported_witness :
  callTable plugin !! Method reqVolumeCreate = None
  /\ Run plugin [ReadOk reqVolumeCreate; ReadOk reqPools] (start 0)
     = Run plugin [ReadOk reqPools]
         {| backend := 0;
            trace := [] ++
              [EvReadRequest (ReadOk reqVolumeCreate);
               EvSendError (LsmErr {| Code := NoSupport;
                 Message := "method " +:+ "volume_create" +:+ " not supported" |})] |}
  /\ exists later,
       trace (Run plugin [ReadOk reqVolumeCreate; ReadOk reqPools] (start 0)).2
       = [] ++
           [EvReadRequest (ReadOk reqVolumeCreate);
            EvSendError (LsmErr {| Code := 153;
              Message := "method volume_create not supported" |})] ++ later
       /\ exists later', later = EvReadRequest (ReadOk reqPools) :: later'.
Proof.
  assert (E : callTable plugin !! Method reqVolumeCreate = None)
    by (vm_compute; reflexivity).
  exact (conj E (absent_method_not_supported plugin reqVolumeCreate
                   [ReadOk reqPools] (start 0) E)).
Defined.

Lemma decode_failure_is_reported_witness :
  Code badJSON <> TransPortComunication
  /\ Run plugin [ReadErr (LsmErr badJSON); ReadOk reqPools] (start 0)
     = Run plugin [ReadOk reqPools]
         {| backend := 0;
            trace := [] ++
              [EvReadRequest (ReadErr (LsmErr badJSON));
               EvSendError (LsmErr badJSON)] |}
  /\ exists later,
       trace (Run plugin [ReadErr (LsmErr badJSON); ReadOk reqPools] (start 0)).2
       = [] ++
           [EvReadRequest (ReadErr (LsmErr badJSON));
            EvSendError (LsmErr badJSON)] ++ later
       /\ exists later', later = EvReadRequest (ReadOk reqPools) :: later'.
Proof.
  assert (E : Code badJSON <> TransPortComunication) by (cbn; lia).
  exact (conj E (decode_failure_is_reported plugin badJSON
                   [ReadOk reqPools] (start 0) E)).
Defined.

Lemma unexpected_failure_ends_without_reply_witness :
  asLsmError (OsErr "unexpected EOF") = None
  /\ Run plugin [ReadErr (OsErr "unexpected EOF"); ReadOk reqPools] (start 0)
     = (Returned [ReadOk reqPools],
        {| backend := 0;
           trace := [] ++
             [EvReadRequest (ReadErr (OsErr "unexpected EOF"));
              EvPrintf ("Unexpected error, exiting! %s" +:+ newline)
                       (OsErr "unexpected EOF")] |}).
Proof.
  assert (E : asLsmError (OsErr "unexpected EOF") = None) by reflexivity.
  exact (conj E (proj1 (unexpected_failure_ends_without_reply plugin
                          (OsErr "unexpected EOF") [ReadOk reqPools] (start 0) E))).
Defined.

Lemma nil_handler_not_supported_witness :
  callTable plugin_nil !! Method reqUnregister = Some None
  /\ Run plugin_nil [ReadOk reqUnregister; ReadOk reqPools] (start 0)
     = Run plugin_nil [ReadOk reqPools]
         {| backend := 0;
            trace := [] ++
              [EvReadRequest (ReadOk reqUnregister);
               EvSendError (LsmErr {| Code := NoSupport;
                 Message := "method " +:+ "plugin_unregister" +:+ " not supported" |})] |}
  /\ exists later,
       trace (Run plugin_nil [ReadOk reqUnregister; ReadOk reqPools] (start 0)).2
       = [] ++
           [EvReadRequest (ReadOk reqUnregister);
            EvSendError (LsmErr {| Code := 153;
              Message := "method plugin_unregister not supported" |})] ++ later
       /\ exists later', later = EvReadRequest (ReadOk reqPools) :: later'.
Proof.
  assert (E : callTable plugin_nil !! Method reqUnregister = Some None)
    by (vm_compute; reflexivity).
  exact (conj E (proj1 (nil_handler_not_supported plugin_nil reqUnregister
                          [ReadOk reqPools] (start 0) E))).
Defined.

Lemma one_reply_per_request_witness :
  trace (Run plugin queue (start 0)).2
  = [EvReadRequest (ReadOk reqPools); EvInvoke "pools" "{}"; EvSendResponse "[]"]
    ++ EvReadRequest (ReadOk reqVolumeCreate)
       :: [EvSendError (LsmErr {| Code := 153;
             Message := "method volume_create not supported" |});
           EvReadRequest (ReadErr (LsmErr badJSON));
           EvSendError (LsmErr badJSON);
           EvReadRequest (ReadOk reqUnregister);
           EvInvoke "plugin_unregister" "{}"; EvSendResponse "null"; EvClose]
  /\ count is_send
       (until_read
          [EvSendError (Resp := string) (LsmErr {| Code := 153;
             Message := "method volume_create not supported" |});
           EvReadRequest (ReadErr (LsmErr badJSON));
           EvSendError (LsmErr badJSON);
           EvReadRequest (ReadOk reqUnregister);
           EvInvoke "plugin_unregister" "{}"; EvSendResponse "null"; EvClose])
     = 1.
Proof.
  assert (E : trace (Run plugin queue (start 0)).2
    = [EvReadRequest (ReadOk reqPools); EvInvoke "pools" "{}"; EvSendResponse "[]"]
      ++ EvReadRequest (ReadOk reqVolumeCreate)
         :: [EvSendError (LsmErr {| Code := 153;
               Message := "method volume_create not supported" |});
             EvReadRequest (ReadErr (LsmErr badJSON));
             EvSendError (LsmErr badJSON);
             EvReadRequest (ReadOk reqUnregister);
             EvInvoke "plugin_unregister" "{}"; EvSendResponse "null"; EvClose])
    by (vm_compute; reflexivity).
  exact (conj E (one_reply_per_request plugin queue 0 _ _ _ E)).
Defined.

Lemma handler_result_is_sent_witness :
  callTable plugin !! Method reqPools = Some (Some pools)
  /\ pools (Params reqPools) (backend (start (Resp := string) 0)) = (("[]", None), 1)
  /\ Method reqPools <> "plugin_unregister"
  /\ Run plugin [ReadOk reqPools; ReadOk reqVolumes] (start 0)
     = Run plugin [ReadOk reqVolumes]
         {| backend := 1;
            trace := [] ++
              [EvReadRequest (ReadOk reqPools);
               EvInvoke (Method reqPools) (Params reqPools);
               EvSendResponse "[]"] |}
  /\ exists later,
       trace (Run plugin [ReadOk reqPools; ReadOk reqVolumes] (start 0)).2
       = [] ++
           [EvReadRequest (ReadOk reqPools);
            EvInvoke "pools" "{}";
            EvSendResponse "[]"] ++ later
       /\ exists later', later = EvReadRequest (ReadOk reqVolumes) :: later'.
Proof.
  assert (E : callTable plugin !! Method reqPools = Some (Some pools))
    by (vm_compute; reflexivity).
  assert (F : pools (Params reqPools) (backend (start (Resp := string) 0))
              = (("[]", None), 1)) by reflexivity.
  assert (N : Method reqPools <> "plugin_unregister") by (cbn; congruence).
  exact (conj E (conj F (conj N
    (handler_result_is_sent plugin reqPools pools [ReadOk reqVolumes]
       (start 0) "[]" 1 E F N)))).
Defined.

Lemma handler_plain_error_is_not_fatal_witness :
  callTable Demo2.plugin !! Method reqVolumes = Some (Some Demo2.volumes)
  /\ Demo2.volumes (Params reqVolumes) (backend (start (Resp := string) 0))
     = (("null", Some (OsErr "backend timed out")), 1)
  /\ Method reqVolumes <> "plugin_unregister"
  /\ asLsmError (OsErr "backend timed out") = None
  /\ (Run Demo2.plugin [ReadOk reqVolumes; ReadOk reqPools] (start 0)
      = Run Demo2.plugin [ReadOk reqPools]
          {| backend := 1;
             trace := [] ++
               [EvReadRequest (ReadOk reqVolumes);
                EvInvoke (Method reqVolumes) (Params reqVolumes);
                EvSendError (OsErr "backend timed out")] |}
      /\ exists later,
           trace (Run Demo2.plugin [ReadOk reqVolumes; ReadOk reqPools] (start 0)).2
           = [] ++
               [EvReadRequest (ReadOk reqVolumes);
                EvInvoke "volumes" "{}";
                EvSendError (OsErr "backend timed out")] ++ later
           /\ exists later', later = EvReadRequest (ReadOk reqPools) :: later')
  /\ Run Demo2.plugin [ReadErr (OsErr "backend timed out"); ReadOk reqPools]
       (start 0)
     = (Returned [ReadOk reqPools],
        {| backend := 0;
           trace := [] ++
             [EvReadRequest (ReadErr (OsErr "backend timed out"));
              EvPrintf ("Unexpected error, exiting! %s" +:+ newline)
                       (OsErr "backend timed out")] |}).
Proof.
  assert (E : callTable Demo2.plugin !! Method reqVolumes
              = Some (Some Demo2.volumes)) by (vm_compute; reflexivity).
  assert (F : Demo2.volumes (Params reqVolumes) (backend (start (Resp := string) 0))
              = (("null", Some (OsErr "backend timed out")), 1)) by reflexivity.
  assert (N : Method reqVolumes <> "plugin_unregister") by (cbn; congruence).
  assert (A : asLsmError (OsErr "backend timed out") = None) by reflexivity.
  exact (conj E (conj F (conj N (conj A
    (handler_plain_error_is_not_fatal Demo2.plugin reqVolumes Demo2.volumes
       [ReadOk reqPools] (start 0) "null" (OsErr "backend timed out") 1
       E F N A))))).
Defined.

Lemma unregister_replies_then_closes_witness :
  Method reqUnregister = "plugin_unregister"
  /\ callTable plugin_failing !! Method reqUnregister = Some (Some unregister_failing)
  /\ unregister_failing (Params reqUnregister) (backend (start (Resp := string) 0))
     = (("null", Some (LsmErr busy)), 1)
  /\ Run plugin_failing [ReadOk reqUnregister; ReadOk reqPools] (start 0)
     = (Returned [ReadOk reqPools],
        {| backend := 1;
           trace := [] ++
             [EvReadRequest (ReadOk reqUnregister);
              EvInvoke (Method reqUnregister) (Params reqUnregister);
              EvSendError (LsmErr busy);
              EvClose] |}).
Proof.
  assert (U : Method reqUnregister = "plugin_unregister") by reflexivity.
  assert (E : callTable plugin_failing !! Method reqUnregister
              = Some (Some unregister_failing)) by (vm_compute; reflexivity).
  assert (F : unregister_failing (Params reqUnregister)
                (backend (start (Resp := string) 0))
              = (("null", Some (LsmErr busy)), 1)) by reflexivity.
  exact (conj U (conj E (conj F
    (unregister_replies_then_closes plugin_failing reqUnregister
       unregister_failing [ReadOk reqPools] (start 0) "null"
       (Some (LsmErr busy)) 1 U E F)))).
Defined.

Lemma no_handler_no_backend_change_witness :
  (forall request (f : @handler nat string),
      In (ReadOk request) Demo2.unserved ->
      callTable plugin_nil !! Method request <> Some (Some f))
  /\ backend (Run plugin_nil Demo2.unserved (start 7)).2 = backend (start (Resp := string) 7)
  /\ count is_invoke (trace (Run plugin_nil Demo2.unserved (start 7)).2)
     = count is_invoke (trace (start (Backend := nat) (Resp := string) 7)).
Proof.
  assert (N : forall request (f : @handler nat string),
             In (ReadOk request) Demo2.unserved ->
             callTable plugin_nil !! Method request <> Some (Some f)).
  { intros request f [E | [E | [E | [E | []]]]]; try discriminate E;
      injection E as <-; vm_compute; discriminate. }
  exact (conj N (no_handler_no_backend_change plugin_nil Demo2.unserved (start 7) N)).
Defined.


Lemma PluginInit_descriptor_fits_witness :
  (forall fd, (0 <= fd < 2 ^ 31)%Z -> fileConn fd = Demo2.fileConn fd)
  /\ PluginInit build fileConn tt ["plugin"; "5"] "demo" "1.0"
     = PluginInit build Demo2.fileConn tt ["plugin"; "5"] "demo" "1.0".
Proof.
  assert (A : forall fd, (0 <= fd < 2 ^ 31)%Z
                         -> fileConn fd = Demo2.fileConn fd).
  { intros fd R. unfold Demo2.fileConn.
    destruct (decide _); [reflexivity | lia]. }
  exact (conj A (PluginInit_descriptor_fits build fileConn Demo2.fileConn tt
                   ["plugin"; "5"] "demo" "1.0" A)).
Defined.

Lemma PluginInit_out_of_range_witness :
  parse_digits "2147483649" 0 = Some 2147483649%Z
  /\ (2 ^ 31 <= 2147483649)%Z
  /\ PluginInit build fileConn tt ["plugin"; "2147483649"] "demo" "1.0"
     = Returns (None, Some (NumErr "ParseInt" "2147483649" ErrRange))
  /\ ((2 ^ 31 < 2147483649)%Z ->
      PluginInit build fileConn tt ["plugin"; String "-" "2147483649"] "demo" "1.0"
      = Returns (None, Some (NumErr "ParseInt" (String "-" "2147483649") ErrRange))).
Proof.
  assert (P : parse_digits "2147483649" 0 = Some 2147483649%Z) by reflexivity.
  assert (V : (2 ^ 31 <= 2147483649)%Z) by (vm_compute; discriminate).
  exact (conj P (conj V
    (PluginInit_out_of_range build fileConn tt "plugin" "2147483649"
       2147483649%Z "demo" "1.0" P V))).
Defined.
